(** * Presensi-Apel: the attendee store and the check-in flows

    A shallow embedding of the persistence layer ([src/db.ts]) and of the
    handlers of the component [App] (the third part of
    [src/components/Scanner.tsx]), with the properties the specification
    states of them.

    Conventions of the model.
    - A JavaScript string is a [string]: a sequence of code units below 256.
    - A [Date] is its time value, the integer number of milliseconds since
      the epoch ([getTime()]); every date the application stores is made by
      [new Date()] and is a valid date.
    - [Array.prototype.sort] is stable, and for a consistent comparator its
      result is determined by that; it is modelled by a stable insertion
      sort, [sort_by].
    - Builtins whose result depends on the host ([toLowerCase],
      [localeCompare], [toLocaleString], [JSON.parse], [encodeURI]) are
      variables of the sections that use them.
    - IndexedDB is the map from keys to records it keeps for an object
      store; whether a request ends in [onsuccess] or [onerror] is an
      argument of the operation that makes it.
    - Timers, audio feedback and rendering are left out. *)

From Stdlib Require Import ZArith Ascii String List Sorted Permutation Bool Lia.
From Stdlib Require OrderedTypeEx.
From stdpp Require Import base gmap strings list.

Local Open Scope Z_scope.

(* ------------------------------------------------------------------ *)
(** ** Arrays: [sort] with a comparator *)

Section Sort.
Context {A : Type}.
Variable cmp : A -> A -> Z.

(** [x] goes in front of the first element it does not exceed, so that
    among elements that compare equal the earlier one stays first. *)
Fixpoint insert_by (x : A) (l : list A) : list A :=
  match l with
  | [] => [x]
  | y :: l' => if cmp x y <=? 0 then x :: y :: l' else y :: insert_by x l'
  end.

Definition sort_by (l : list A) : list A := foldr insert_by [] l.

(** A comparator is consistent when reversing its arguments reverses its
    sign and being not after is transitive. *)
Definition consistent : Prop :=
  (forall a b, Z.sgn (cmp a b) = - Z.sgn (cmp b a)) /\
  (forall a b c, cmp a b <= 0 -> cmp b c <= 0 -> cmp a c <= 0).

Definition ordered (l : list A) : Prop :=
  StronglySorted (fun a b => cmp a b <= 0) l.
End Sort.

(* ------------------------------------------------------------------ *)
(** ** Strings *)

Definition dquote : ascii := ascii_of_nat 34.
Definition newline : string := String (ascii_of_nat 10) EmptyString.

(** [s.includes(q)] *)
Fixpoint includes (s q : string) : bool :=
  match s with
  | EmptyString => String.prefix q EmptyString
  | String _ s' => String.prefix q s || includes s' q
  end.

(** WhiteSpace and LineTerminator code units below 256: TAB, LF, VT, FF,
    CR, SP and NBSP. *)
Definition is_white (c : ascii) : bool :=
  let n := nat_of_ascii c in
  ((9 <=? n)%nat && (n <=? 13)%nat) || (n =? 32)%nat || (n =? 160)%nat.

Fixpoint trimStart (s : string) : string :=
  match s with
  | EmptyString => EmptyString
  | String c s' => if is_white c then trimStart s' else s
  end.

Fixpoint trimEnd (s : string) : string :=
  match s with
  | EmptyString => EmptyString
  | String c s' =>
      match trimEnd s' with
      | EmptyString => if is_white c then EmptyString else String c EmptyString
      | r => String c r
      end
  end.




(** [s.trim()] *)
Definition trim (s : string) : string := trimEnd (trimStart s).

(** [s.replace] of every double-quote character by two of them. *)
Fixpoint replaceQuotes (s : string) : string :=
  match s with
  | EmptyString => EmptyString
  | String c s' =>
      if Ascii.eqb c dquote
      then String dquote (String dquote (replaceQuotes s'))
      else String c (replaceQuotes s')
  end.

(** [toLowerCase] on code units below 256: A-Z and the capital letters of
    Latin-1 (192-222 but for the multiplication sign 215) move up by 32. *)
Definition lower_unit (c : ascii) : ascii :=
  let n := nat_of_ascii c in
  if ((65 <=? n)%nat && (n <=? 90)%nat)
     || ((192 <=? n)%nat && (n <=? 222)%nat && negb (n =? 215)%nat)
  then ascii_of_nat (n + 32) else c.

Fixpoint latin1_toLowerCase (s : string) : string :=
  match s with
  | EmptyString => EmptyString
  | String c s' => String (lower_unit c) (latin1_toLowerCase s')
  end.

(** Code-unit order, as a comparator. *)
Definition sign_of (c : comparison) : Z :=
  match c with Lt => -1 | Eq => 0 | Gt => 1 end.

Definition unit_compare (a b : string) : Z := sign_of (String.compare a b).

(* ------------------------------------------------------------------ *)
(** ** types.ts *)

(** Modelled from the spec: the declarations of [types.ts], which is not
    among the sources. An attendee record has an identifier [NIK], a
    display name [Nama] and a check-in time [timestamp]. *)
Record Attendee : Type := mkAttendee {
  NIK : string;
  Nama : string;
  timestamp : Z
}.

(* ------------------------------------------------------------------ *)
(** ** db.ts *)

Module Db.

(** What the module asks of IndexedDB. *)
Inductive Call : Type :=
| CallOpen
| CallPut (attendee : Attendee)
| CallGetAll
| CallDelete (nik : string)
| CallClear.

(** [db]: whether the module variable holds the open database;
    [attendees]: the object store of that name, whose key path is [NIK];
    [calls]: the requests made so far, latest first. *)
Record World : Type := mkWorld {
  db : bool;
  attendees : gmap string Attendee;
  calls : list Call
}.

(** How a request ends: which of its two callbacks fires. *)
Inductive Fired : Type := onsuccess | onerror.

(** A settled promise. *)
Inductive Settled (T : Type) : Type :=
| Resolved (value : T)
| Rejected (reason : string).
Arguments Resolved {T} value.
Arguments Rejected {T} reason.

Definition request (c : Call) (w : World) : World :=
  mkWorld (db w) (attendees w) (c :: calls w).

(** The upgrade step of a first [open] creates the object store, empty:
    the store of a database that was never opened is the empty map. *)
Definition initDB (ev : Fired) (w : World) : Settled bool * World :=
  if db w then (Resolved true, w)
  else
    let w := request CallOpen w in
    match ev with
    | onerror => (Rejected "Database error", w)
    | onsuccess => (Resolved true, mkWorld true (attendees w) (calls w))
    end.

Definition addAttendee (ev : Fired) (attendee : Attendee) (w : World)
  : Settled Attendee * World :=
  if negb (db w) then (Rejected "DB not initialized", w)
  else
    let w := request (CallPut attendee) w in
    match ev with
    | onsuccess =>
        (Resolved attendee,
         mkWorld (db w) (<[NIK attendee := attendee]> (attendees w)) (calls w))
    | onerror => (Rejected "Error adding attendee", w)
    end.

(** [store.getAll()]: the records in the order of their keys. *)
Definition getAll (m : gmap string Attendee) : list Attendee :=
  (sort_by (fun x y => unit_compare x.1 y.1) (map_to_list m)).*2.

Definition getAllAttendees (ev : Fired) (w : World)
  : Settled (list Attendee) * World :=
  if negb (db w) then (Rejected "DB not initialized", w)
  else
    let w := request CallGetAll w in
    match ev with
    | onsuccess =>
        let sorted :=
          sort_by (fun a b => timestamp b - timestamp a) (getAll (attendees w)) in
        (Resolved sorted, w)
    | onerror => (Rejected "Error getting all attendees", w)
    end.

Definition deleteAttendee (ev : Fired) (nik : string) (w : World)
  : Settled string * World :=
  if negb (db w) then (Rejected "DB not initialized", w)
  else
    let w := request (CallDelete nik) w in
    match ev with
    | onsuccess =>
        (Resolved nik, mkWorld (db w) (delete nik (attendees w)) (calls w))
    | onerror => (Rejected "Error deleting attendee", w)
    end.

Definition clearAttendees (ev : Fired) (w : World) : Settled unit * World :=
  if negb (db w) then (Rejected "DB not initialized", w)
  else
    let w := request CallClear w in
    match ev with
    | onsuccess => (Resolved tt, mkWorld (db w) ∅ (calls w))
    | onerror => (Rejected "Error clearing attendees", w)
    end.

(** A run of successful [addAttendee] calls, the head of the list last. *)
Definition addAll (rs : list Attendee) (w : World) : World :=
  foldr (fun r w => (addAttendee onsuccess r w).2) w rs.

(** The store after the records of [rs] were put in it, the head last. *)
Definition putAll (rs : list Attendee) (m : gmap string Attendee)
  : gmap string Attendee :=
  foldr (fun r m => <[NIK r := r]> m) m rs.

Definition descending (l : list Attendee) : Prop :=
  StronglySorted (fun a b => timestamp a >= timestamp b) l.

(** Every record sits under its own identifier. *)
Definition keyed (m : gmap string Attendee) : Prop :=
  forall k a, m !! k = Some a -> NIK a = k.

(** The calls a client can make, each with the end of its request, and
    the world after a run of them, the first call first. *)
Inductive Op : Type :=
| OpInit (ev : Fired)
| OpAdd (ev : Fired) (attendee : Attendee)
| OpGetAll (ev : Fired)
| OpDelete (ev : Fired) (nik : string)
| OpClear (ev : Fired).

Definition step (w : World) (op : Op) : World :=
  match op with
  | OpInit ev => (initDB ev w).2
  | OpAdd ev attendee => (addAttendee ev attendee w).2
  | OpGetAll ev => (getAllAttendees ev w).2
  | OpDelete ev nik => (deleteAttendee ev nik w).2
  | OpClear ev => (clearAttendees ev w).2
  end.

Definition run (ops : list Op) (w : World) : World := foldl step w ops.

(** The world of a page that has not called the module yet, over a
    database that does not exist yet. *)
Definition initial : World := mkWorld false ∅ [].

End Db.

(* ------------------------------------------------------------------ *)
(** ** App.tsx *)

Module App.
Import Db.

(** The values [JSON.parse] returns. An object lists its own members,
    one per name. *)
#[local] Unset Elimination Schemes.
Inductive JSON : Type :=
| JNull
| JBoolean (b : bool)
| JNumber (n : Z)
| JString (s : string)
| JArray (elements : list JSON)
| JObject (members : list (string * JSON)).
#[local] Set Elimination Schemes.

Inductive Exception : Type :=
| SyntaxError
| TypeError
| Error (message : string)
| Rejection (reason : string).

(** [data.name]: reading a member of [null] throws; a member that is
    not there reads as undefined, here [None]. *)
Definition get (data : JSON) (name : string) : Exception + option JSON :=
  match data with
  | JNull => inl TypeError
  | JObject members =>
      inr (snd <$> List.find (fun m => String.eqb (fst m) name) members)
  | _ => inr None
  end.

(** What [!] and [||] test. *)
Definition truthy (v : option JSON) : bool :=
  match v with
  | None | Some JNull => false
  | Some (JBoolean b) => b
  | Some (JNumber n) => negb (n =? 0)
  | Some (JString s) => negb (String.eqb s "")
  | Some (JArray _) | Some (JObject _) => true
  end.

(** [nik === v], for a string [nik]. *)
Definition strictEquals (nik : string) (v : option JSON) : bool :=
  match v with
  | Some (JString s) => String.eqb nik s
  | _ => false
  end.



Inductive Kind : Type := success | error | info.

Record Notification : Type := mkNotification {
  message : string;
  type : Kind
}.

Inductive SortKey : Type := SortTimestamp | SortNama | SortNIK.
Inductive SortOrder : Type := asc | desc.

(** The state of the component the handlers read and write, with the
    world of [db.ts]. *)
Record State : Type := mkState {
  world : World;
  attendanceList : list Attendee;
  notification : option Notification;
  manualNIK : string;
  manualNama : string;
  isProcessingScan : bool
}.

Definition showNotification (message : string) (type : Kind) (s : State) : State :=
  mkState (world s) (attendanceList s) (Some (mkNotification message type))
          (manualNIK s) (manualNama s) (isProcessingScan s).

Definition setProcessing (b : bool) (s : State) : State :=
  mkState (world s) (attendanceList s) (notification s)
          (manualNIK s) (manualNama s) b.

Definition setWorld (w : World) (s : State) : State :=
  mkState w (attendanceList s) (notification s)
          (manualNIK s) (manualNama s) (isProcessingScan s).

Definition setAttendanceList (l : list Attendee) (s : State) : State :=
  mkState (world s) l (notification s)
          (manualNIK s) (manualNama s) (isProcessingScan s).

Definition setManual (nik nama : string) (s : State) : State :=
  mkState (world s) (attendanceList s) (notification s)
          nik nama (isProcessingScan s).

(** The Duplicate Guard: [attendanceList.some(attendee => attendee.NIK === nik)]. *)
Definition isDuplicate (attendanceList : list Attendee) (nik : string) : bool :=
  existsb (fun attendee => String.eqb (NIK attendee) nik) attendanceList.

(** How a handler, or its [try] block, ends. [OutsideTypes]: the payload
    carries a [NIK] or [Nama] that is truthy but not a string, so the
    record the handler builds is not an [Attendee]; the model stops
    there. *)
Inductive Ending : Type :=
| Returned (s : State)
| Thrown (e : Exception) (s : State)
| OutsideTypes.

Definition parseFailed : string :=
  "Failed to parse QR code. Please use a valid event QR code.".

Definition invalidFormat : string := "Invalid QR code format. Missing 'NIK' or 'Nama'.".

Section Host.
Variable JSON_parse : string -> option JSON.
Variable ToString : JSON -> string.
Variable toLowerCase : string -> string.
Variable localeCompare : string -> string -> Z.
Variable toLocaleString : Z -> string.
Variable encodeURI : string -> string.

(** [`${v}`] *)
Definition interpolate (v : option JSON) : string :=
  match v with
  | Some (JString s) => s
  | Some v => ToString v
  | None => "undefined"
  end.

(** The [try] block of [handleScanSuccess]. [now] is [new Date()] and
    [ev] the end of the request [addAttendee] makes. Reading a member
    throws for [null] only, and then for [NIK] already, so both members
    are read before the test of the first. *)
Definition scanTry (now : Z) (ev : Fired) (decodedText : string) (s : State)
  : Ending :=
  match JSON_parse decodedText with
  | None => Thrown SyntaxError s
  | Some data =>
      match get data "NIK", get data "Nama" with
      | inl e, _ | _, inl e => Thrown e s
      | inr nik, inr nama =>
          if negb (truthy nik) || negb (truthy nama)
          then Thrown (Error invalidFormat) s
          else if existsb (fun attendee => strictEquals (NIK attendee) nik)
                          (attendanceList s)
          then Returned
                 (showNotification (interpolate nama +:+ " is already checked in.")
                                   info s)
          else
            match nik, nama with
            | Some (JString nik), Some (JString nama) =>
                let newAttendee := mkAttendee nik nama now in
                match addAttendee ev newAttendee (world s) with
                | (Rejected reason, w) => Thrown (Rejection reason) (setWorld w s)
                | (Resolved _, w) =>
                    let s := setWorld w s in
                    let s := setAttendanceList (newAttendee :: attendanceList s) s in
                    Returned (showNotification ("Welcome, " +:+ nama +:+ "!") success s)
                end
            | _, _ => OutsideTypes
            end
      end
  end.

Definition handleScanSuccess (now : Z) (ev : Fired) (decodedText : string)
           (s : State) : Ending :=
  if isProcessingScan s then Returned s
  else
    let s := setProcessing true s in
    match scanTry now ev decodedText s with
    | Thrown _ s =>
        Returned (showNotification parseFailed error s)
    | ending => ending
    end.

(** The timer the [finally] block sets, three seconds on. *)
Definition scanTimeout (s : State) : State := setProcessing false s.

Definition handleManualAdd (now : Z) (ev : Fired) (s : State) : State :=
  if String.eqb (trim (manualNIK s)) "" || String.eqb (trim (manualNama s)) ""
  then showNotification "Both NIK and Nama are required for manual entry." error s
  else
    let trimmedNIK := trim (manualNIK s) in
    let trimmedNama := trim (manualNama s) in
    if isDuplicate (attendanceList s) trimmedNIK
    then showNotification
           (trimmedNama +:+ " (NIK: " +:+ trimmedNIK +:+ ") is already checked in.")
           info s
    else
      let newAttendee := mkAttendee trimmedNIK trimmedNama now in
      match addAttendee ev newAttendee (world s) with
      | (Resolved _, w) =>
          let s := setWorld w s in
          let s := setAttendanceList (newAttendee :: attendanceList s) s in
          let s := showNotification ("Welcome, " +:+ Nama newAttendee +:+ "!") success s in
          setManual "" "" s
      | (Rejected _, w) =>
          showNotification "Failed to save attendee." error (setWorld w s)
      end.

Definition quoted (s : string) : string :=
  String dquote s +:+ String dquote "".

Definition headers : list string := ["NIK"; "Nama"; "Timestamp"].

Definition csvRow (attendee : Attendee) : list string :=
  [ NIK attendee;
    quoted (replaceQuotes (Nama attendee));
    quoted (toLocaleString (timestamp attendee)) ].

(** The lines of the document, the header first. *)
Definition csvLines (attendanceList : list Attendee) : list string :=
  let sortedAttendees :=
    sort_by (fun a b => timestamp a - timestamp b) attendanceList in
  let rows := map csvRow sortedAttendees in
  String.concat "," headers :: map (String.concat ",") rows.

Definition csvContent (attendanceList : list Attendee) : string :=
  "data:text/csv;charset=utf-8," +:+ String.concat newline (csvLines attendanceList).

Record Link : Type := mkLink { href : string; download : string }.

(** [date] is the day of the export, [new Date().toISOString().slice(0, 10)].
    The link the handler clicks comes back with the state. *)
Definition handleExportCSV (date : string) (s : State) : State * option Link :=
  if (length (attendanceList s) =? 0)%nat
  then (showNotification "No attendees to export." info s, None)
  else
    let encodedUri := encodeURI (csvContent (attendanceList s)) in
    let link := mkLink encodedUri ("attendance_list_" +:+ date +:+ ".csv") in
    (showNotification "Attendance list exported." success s, Some link).

Definition comparison (sortKey : SortKey) (a b : Attendee) : Z :=
  match sortKey with
  | SortNama => localeCompare (Nama a) (Nama b)
  | SortNIK => localeCompare (NIK a) (NIK b)
  | SortTimestamp => timestamp a - timestamp b
  end.

(** The list projection. *)
Definition sortedAndFilteredAttendees
           (attendanceList : list Attendee) (searchQuery : string)
           (sortKey : SortKey) (sortOrder : SortOrder) : list Attendee :=
  let filtered :=
    List.filter
      (fun attendee =>
         includes (toLowerCase (Nama attendee)) (toLowerCase searchQuery)
         || includes (toLowerCase (NIK attendee)) (toLowerCase searchQuery))
      attendanceList in
  sort_by
    (fun a b =>
       match sortOrder with
       | asc => comparison sortKey a b
       | desc => - comparison sortKey a b
       end)
    filtered.
End Host.

End App.

(* ------------------------------------------------------------------ *)
(** ** Records, worlds and states for the examples *)

Module Examples.
Import Db App.

Definition jane : Attendee := mkAttendee "A001" "Jane" 1000.
Definition janet : Attendee := mkAttendee "A001" "Janet" 2000.
Definition alan : Attendee := mkAttendee "A002" "Alan" 3000.

(** An open store that holds [jane]. *)
Definition w_jane : World := mkWorld true (<["A001" := jane]> ∅) [].
(** A store that was never opened. *)
Definition w_closed : World := mkWorld false ∅ [].

(** The two records of the example of the list projection. *)
Definition jane_A1 : Attendee := mkAttendee "A1" "Jane" 2.
Definition alan_A2 : Attendee := mkAttendee "A2" "Alan" 1.

(** A record whose identifier has a comma, as manual entry accepts it,
    and the state of the component with that record alone. *)
Definition comma_record : Attendee := mkAttendee "A,1" "Jane" 0.
Definition exporting : State := mkState w_jane [comma_record] None "" "" false.

(** A name with a double quote in the middle. *)
Definition john : string := "Jo" +:+ String dquote "hn".

(** Two payloads, and a parser that knows them, for the examples. *)
Definition payload_nik_only : string :=
  "{" +:+ quoted "NIK" +:+ ":" +:+ quoted "123" +:+ "}".
Definition payload_jane : string :=
  "{" +:+ quoted "NIK" +:+ ":" +:+ quoted "A001" +:+ ","
      +:+ quoted "Nama" +:+ ":" +:+ quoted "Jane" +:+ "}".

Definition parse_examples (text : string) : option JSON :=
  if String.eqb text payload_nik_only
  then Some (JObject [("NIK", JString "123")])
  else if String.eqb text payload_jane
  then Some (JObject [("NIK", JString "A001"); ("Nama", JString "Jane")])
  else None.

Definition toString_examples (v : JSON) : string := "[object Object]".

(** Jane is checked in; nothing is being processed. *)
Definition idle : State := mkState w_jane [jane] None "" "" false.
(** The same, within three seconds of a scan. *)
Definition busy : State := mkState w_jane [jane] None "" "" true.
(** The form filled with Jane's identifier, with spaces around it. *)
Definition typing : State := mkState w_jane [jane] None " A001 " " Jane" false.

End Examples.

(* ------------------------------------------------------------------ *)
(** ** Scanner.tsx: starting the camera *)

Module Scanner.

Record Camera : Type := mkCamera { id : string; label : string }.

(** What a rejected promise of the library carries: an error with its
    message, or a value without one. *)
Inductive Failure : Type :=
| WithMessage (message : string)
| WithoutMessage.

(** What the component tells its parent. *)
Inductive Callback : Type :=
| onReady
| onScanError (errorMessage : string)
| silent.

Definition noCameras : string := "No cameras found on this device.".

(** The camera the scanner starts on. [cameras] is what [getCameras]
    resolved with, [None] when it is no list at all. *)
Definition chooseCamera (cameras : option (list Camera)) : Failure + string :=
  match cameras with
  | None | Some [] => inl (WithMessage noCameras)
  | Some [c] => inr (id c)
  | Some (_ :: c :: _) => inr (id c)
  end.

(** [`Failed to start QR scanner: ${err.message || 'Unknown error'}. ...`] *)
Definition startFailed (err : Failure) : string :=
  "Failed to start QR scanner: "
    +:+ match err with
        | WithMessage message =>
            if String.eqb message "" then "Unknown error" else message
        | WithoutMessage => "Unknown error"
        end
    +:+ ". Please grant camera permissions and refresh.".

(** The effect of the component. [library]: the global of the library is
    there; [getCameras]: how that call settles; [start]: how starting on a
    camera settles, [None] for success; [isComponentMounted]: the flag at
    the time the calls have settled. *)
Definition startScanner (library : bool)
           (getCameras : Failure + option (list Camera))
           (start : string -> option Failure)
           (isComponentMounted : bool) : Callback :=
  if negb library then onScanError "QR Code library failed to load."
  else
    let caught (err : Failure) :=
      if isComponentMounted then onScanError (startFailed err) else silent in
    match getCameras with
    | inl err => caught err
    | inr cameras =>
        match chooseCamera cameras with
        | inl err => caught err
        | inr cameraId =>
            match start cameraId with
            | Some err => caught err
            | None => if isComponentMounted then onReady else silent
            end
        end
    end.

End Scanner.

(* ------------------------------------------------------------------ *)
(** ** App.tsx: the rest of the component *)

Module Page.
Import Db App.

(** The state of [App]: the part the check-in flows use, [core], and the
    dialogs, the scanner switch and the connection. *)
Record Page : Type := mkPage {
  core : State;
  showClearConfirm : bool;
  showDeleteConfirm : bool;
  attendeeToDelete : option string;
  isDbInitialized : bool;
  isScannerActive : bool;
  isScannerInitializing : bool;
  isOnline : bool
}.

Definition setCore (c : State) (p : Page) : Page :=
  mkPage c (showClearConfirm p) (showDeleteConfirm p) (attendeeToDelete p)
         (isDbInitialized p) (isScannerActive p) (isScannerInitializing p) (isOnline p).

Definition setShowClearConfirm (b : bool) (p : Page) : Page :=
  mkPage (core p) b (showDeleteConfirm p) (attendeeToDelete p)
         (isDbInitialized p) (isScannerActive p) (isScannerInitializing p) (isOnline p).

Definition setDeleteDialog (b : bool) (nik : option string) (p : Page) : Page :=
  mkPage (core p) (showClearConfirm p) b nik
         (isDbInitialized p) (isScannerActive p) (isScannerInitializing p) (isOnline p).

Definition setIsDbInitialized (b : bool) (p : Page) : Page :=
  mkPage (core p) (showClearConfirm p) (showDeleteConfirm p) (attendeeToDelete p)
         b (isScannerActive p) (isScannerInitializing p) (isOnline p).

(** [setIsScannerActive], with the effect that follows it: the scanner
    is initializing exactly when it was just switched on. *)
Definition setIsScannerActive (b : bool) (p : Page) : Page :=
  mkPage (core p) (showClearConfirm p) (showDeleteConfirm p) (attendeeToDelete p)
         (isDbInitialized p) b b (isOnline p).

Definition setIsScannerInitializing (b : bool) (p : Page) : Page :=
  mkPage (core p) (showClearConfirm p) (showDeleteConfirm p) (attendeeToDelete p)
         (isDbInitialized p) (isScannerActive p) b (isOnline p).

Definition setIsOnline (b : bool) (p : Page) : Page :=
  mkPage (core p) (showClearConfirm p) (showDeleteConfirm p) (attendeeToDelete p)
         (isDbInitialized p) (isScannerActive p) (isScannerInitializing p) b.

Definition notify (message : string) (type : Kind) (p : Page) : Page :=
  setCore (showNotification message type (core p)) p.

(** The effect on mount: open the store, then load the records. *)
Definition mount (evInit evGet : Fired) (p : Page) : Page :=
  match initDB evInit (world (core p)) with
  | (Resolved _, w) =>
      let p := setIsDbInitialized true (setCore (setWorld w (core p)) p) in
      match getAllAttendees evGet w with
      | (Resolved attendees, w) =>
          let copies :=
            map (fun a => mkAttendee (NIK a) (Nama a) (timestamp a)) attendees in
          setCore (setAttendanceList copies (setWorld w (core p))) p
      | (Rejected _, w) =>
          notify "Could not load saved attendance data." error
                 (setCore (setWorld w (core p)) p)
      end
  | (Rejected _, w) =>
      notify "Offline storage is not available." error
             (setCore (setWorld w (core p)) p)
  end.

Definition handleOnline (p : Page) : Page :=
  notify "You are back online." info (setIsOnline true p).

Definition handleOffline (p : Page) : Page :=
  notify "You are offline. Data will be saved locally." info (setIsOnline false p).

Definition handleScanError (errorMessage : string) (p : Page) : Page :=
  if isScannerActive p
  then setIsScannerActive false (notify errorMessage error p)
  else p.

Definition handleConfirmClear (ev : Fired) (p : Page) : Page :=
  match clearAttendees ev (world (core p)) with
  | (Resolved _, w) =>
      let c := setAttendanceList [] (setWorld w (core p)) in
      notify "Attendance list has been cleared." success
             (setShowClearConfirm false (setCore c p))
  | (Rejected _, w) =>
      notify "Failed to clear attendance list." error
             (setCore (setWorld w (core p)) p)
  end.

Definition handleDeleteRequest (nik : string) (p : Page) : Page :=
  setDeleteDialog true (Some nik) p.

(** [attendeeToRemove?.Nama || 'Attendee'] *)
Definition removedName (attendeeToRemove : option Attendee) : string :=
  match attendeeToRemove with
  | Some a => if String.eqb (Nama a) "" then "Attendee" else Nama a
  | None => "Attendee"
  end.

(** The empty identifier is falsy, like no identifier. *)
Definition handleConfirmDelete (ev : Fired) (p : Page) : Page :=
  match attendeeToDelete p with
  | None => p
  | Some nik =>
      if String.eqb nik "" then p
      else
        let attendeeToRemove :=
          List.find (fun a => String.eqb (NIK a) nik) (attendanceList (core p)) in
        match deleteAttendee ev nik (world (core p)) with
        | (Resolved _, w) =>
            let c := setWorld w (core p) in
            let c :=
              setAttendanceList
                (List.filter (fun attendee => negb (String.eqb (NIK attendee) nik))
                             (attendanceList c)) c in
            notify (removedName attendeeToRemove +:+ " has been removed.") success
                   (setDeleteDialog false None (setCore c p))
        | (Rejected _, w) =>
            notify "Failed to remove attendee." error
                   (setCore (setWorld w (core p)) p)
        end
  end.

Definition handleCancelDelete (p : Page) : Page := setDeleteDialog false None p.

Definition handleSyncData (p : Page) : Page :=
  notify "Data synced successfully!" success p.

(** What the user and the environment can do to the page in one step
    that does not wait for the store: each of these handlers runs to its
    end before anything else runs. The handlers that await a request
    (the mount effect, a scan, a manual add, the confirmed delete and the
    confirmed clear) are not among them: they are the functions above,
    each the run of one handler with no other handler in between. *)
Inductive Action : Type :=
| ScanTimeout
| TypeNIK (text : string)
| TypeNama (text : string)
| DeleteRequest (nik : string)
| CancelDelete
| AskClear
| CancelClear
| ExportCSV (date : string)
| SyncData
| ToggleScanner
| FromScanner (cb : Scanner.Callback)
| Online
| Offline.

Section Host.
Variable toLocaleString : Z -> string.
Variable encodeURI : string -> string.

Definition dispatch (a : Action) (p : Page) : Page :=
  match a with
  | ScanTimeout => setCore (scanTimeout (core p)) p
  | TypeNIK text => setCore (setManual text (manualNama (core p)) (core p)) p
  | TypeNama text => setCore (setManual (manualNIK (core p)) text (core p)) p
  | DeleteRequest nik => handleDeleteRequest nik p
  | CancelDelete => handleCancelDelete p
  | AskClear => setShowClearConfirm true p
  | CancelClear => setShowClearConfirm false p
  | ExportCSV date =>
      setCore (handleExportCSV toLocaleString encodeURI date (core p)).1 p
  | SyncData => handleSyncData p
  | ToggleScanner => setIsScannerActive (negb (isScannerActive p)) p
  | FromScanner Scanner.onReady => setIsScannerInitializing false p
  | FromScanner (Scanner.onScanError errorMessage) => handleScanError errorMessage p
  | FromScanner Scanner.silent => p
  | Online => handleOnline p
  | Offline => handleOffline p
  end.
End Host.

(** The page as the component first renders it, over a world. *)
Definition initialPage (w : World) (online : bool) : Page :=
  mkPage (mkState w [] None "" "" false) false false None false false false online.

Definition records (p : Page) : gmap string Attendee := attendees (world (core p)).
Definition shown (p : Page) : list Attendee := attendanceList (core p).

(** The list holds no identifier twice, and what it holds is stored. *)
Definition Synced (p : Page) : Prop :=
  keyed (records p)
  /\ NoDup (NIK <$> shown p)
  /\ forall a, a ∈ shown p -> records p !! NIK a = Some a.

(** The list also holds all that is stored. *)
Definition InSync (p : Page) : Prop :=
  Synced p /\ forall k a, records p !! k = Some a -> a ∈ shown p.

End Page.

(* ------------------------------------------------------------------ *)
(** ** Words for what the operations and the handlers do *)

Module Observations.
Import Db App Page.

Definition byKey (x y : string * Attendee) : Z := unit_compare x.1 y.1.

Definition otherKey (nik : string) (x : string * Attendee) : bool :=
  negb (String.eqb x.1 nik).

Definition otherNIK (nik : string) (a : Attendee) : bool :=
  negb (String.eqb (NIK a) nik).

Definition isInit (op : Op) : bool :=
  match op with OpInit _ => true | _ => false end.

(** How an operation's request ends, if it makes one. *)
Definition ending (op : Op) : Fired :=
  match op with
  | OpInit ev | OpAdd ev _ | OpGetAll ev | OpDelete ev _ | OpClear ev => ev
  end.

Definition opensStore (op : Op) : bool :=
  match op with OpInit onsuccess => true | _ => false end.

Definition fails (op : Op) : bool :=
  match ending op with onerror => true | onsuccess => false end.

(** The store and the list after a handler, against those before. *)
Definition Unchanged (s s' : State) : Prop :=
  attendees (world s') = attendees (world s)
  /\ attendanceList s' = attendanceList s.

Definition Added (a : Attendee) (s s' : State) : Prop :=
  isDuplicate (attendanceList s) (NIK a) = false
  /\ attendees (world s') = <[NIK a := a]> (attendees (world s))
  /\ attendanceList s' = a :: attendanceList s.

(** The ways the stored records and the list can change together. *)
Inductive Change (p p' : Page) : Prop :=
| Same :
    records p' = records p -> shown p' = shown p -> Change p p'
| Checked (a : Attendee) :
    isDuplicate (shown p) (NIK a) = false ->
    records p' = <[NIK a := a]> (records p) ->
    shown p' = a :: shown p -> Change p p'
| Removed (nik : string) :
    records p' = delete nik (records p) ->
    shown p' = List.filter (otherNIK nik) (shown p) -> Change p p'
| Cleared :
    records p' = ∅ -> shown p' = [] -> Change p p'
| Loaded :
    records p' = records p ->
    shown p' = sort_by (fun a b => timestamp b - timestamp a) (getAll (records p)) ->
    Change p p'.

(** A member that is a string. *)
Definition isText (v : option JSON) : bool :=
  match v with Some (JString _) => true | _ => false end.

(** A payload within the declared type of the scanned data: it does not
    parse, or each of its [NIK] and [Nama] is a string or is falsy. *)
Definition typed (parsed : option JSON) : bool :=
  match parsed with
  | None => true
  | Some data =>
      match get data "NIK", get data "Nama" with
      | inr nik, inr nama =>
          (negb (truthy nik) || isText nik) && (negb (truthy nama) || isText nama)
      | _, _ => true
      end
  end.

(** The record [old] under [k] is still there, or nothing is. *)
Definition kept (k : string) (old : Attendee) (p' : Page) : Prop :=
  records p' !! k = Some old \/ records p' !! k = None.

(** The line feeds of a string. *)
Fixpoint lineFeeds (s : string) : nat :=
  match s with
  | EmptyString => 0
  | String c s' =>
      ((if Ascii.eqb c (ascii_of_nat 10) then 1 else 0) + lineFeeds s')%nat
  end.

Definition noQuote (s : string) : bool := negb (includes s (String dquote "")).

End Observations.

(* ------------------------------------------------------------------ *)
(** ** More records, states and pages for the examples *)

Module MoreExamples.
Import Db App Page Scanner Examples.

(** A page over the store that holds Jane, before anything was loaded. *)
Definition page_jane : Page := initialPage w_jane true.

Definition noLocale (t : Z) : string := "".

Definition noEncoding (s : string) : string := s.

(** An open, empty store and nobody checked in. *)
Definition fresh : State := mkState (mkWorld true ∅ []) [] None "" "" false.

(** The form filled for Alan, who is not checked in. *)
Definition typing_alan : State := mkState w_jane [jane] None " A002 " "Alan " false.


(** The page after Jane's record was loaded. *)
Definition loaded_jane : Page := mount onsuccess onsuccess page_jane.

(** A page with the scanner switched on, and a device with two cameras. *)
Definition scanning : Page := setIsScannerActive true loaded_jane.
Definition front : Camera := mkCamera "cam-front" "Front".
Definition back : Camera := mkCamera "cam-back" "Back".

(** A list of one record whose identifier holds a line feed. *)
Definition broken_line : State :=
  mkState w_jane [mkAttendee ("A" +:+ newline +:+ "B") "Ann" 1] None "" "" false.

End MoreExamples.

(* ------------------------------------------------------------------ *)
(** ** App.tsx: a manual add in its two halves *)

Module Async.
Import Db App Page Examples MoreExamples.

(** [handleManualAdd] is an async function. Up to [await addAttendee] it
    runs at once, on the form and the list of the render that made it:
    [manualAddStart] is that half, and answers either the state the
    handler ends in or the record it waits for. What follows the [await]
    runs when the request has ended, on the state as it is by then, for
    [setAttendanceList] is given a function of the list of that moment:
    [manualAddResume] is that half. The request and its end are taken
    together where the handler resumes. *)
Inductive Suspended : Type :=
| Finished (s : State)
| Awaiting (newAttendee : Attendee).

Definition manualAddStart (now : Z) (s : State) : Suspended :=
  if String.eqb (trim (manualNIK s)) "" || String.eqb (trim (manualNama s)) ""
  then Finished
         (showNotification "Both NIK and Nama are required for manual entry." error s)
  else
    let trimmedNIK := trim (manualNIK s) in
    let trimmedNama := trim (manualNama s) in
    if isDuplicate (attendanceList s) trimmedNIK
    then Finished
           (showNotification
              (trimmedNama +:+ " (NIK: " +:+ trimmedNIK +:+ ") is already checked in.")
              info s)
    else Awaiting (mkAttendee trimmedNIK trimmedNama now).

Definition manualAddResume (ev : Fired) (newAttendee : Attendee) (s : State) : State :=
  match addAttendee ev newAttendee (world s) with
  | (Resolved _, w) =>
      let s := setWorld w s in
      let s := setAttendanceList (newAttendee :: attendanceList s) s in
      let s := showNotification ("Welcome, " +:+ Nama newAttendee +:+ "!") success s in
      setManual "" "" s
  | (Rejected _, w) =>
      showNotification "Failed to save attendee." error (setWorld w s)
  end.

(** The page after Jane was loaded, with the form filled for Alan. *)
Definition form_alan : Page := setCore typing_alan loaded_jane.

End Async.

(* ------------------------------------------------------------------ *)
(** * Properties *)

(** ** Sorting *)

Section SortFacts.
Context {A : Type}.
Variable cmp : A -> A -> Z.

Lemma insert_by_perm (x : A) (l : list A) : insert_by cmp x l ≡ₚ x :: l.
Proof.
  induction l as [|y l IH]; simpl; [done|].
  destruct (cmp x y <=? 0); [done|].
  rewrite IH. apply Permutation_swap.
Qed.

Lemma sort_by_perm (l : list A) : sort_by cmp l ≡ₚ l.
Proof.
  induction l as [|x l IH]; simpl; [done|].
  fold (sort_by cmp l). rewrite insert_by_perm. by rewrite IH.
Qed.

Lemma sort_by_elem_of (x : A) (l : list A) : x ∈ sort_by cmp l <-> x ∈ l.
Proof. by rewrite sort_by_perm. Qed.

Lemma sort_by_length (l : list A) : length (sort_by cmp l) = length l.
Proof. by rewrite sort_by_perm. Qed.

Hypothesis Hcmp : consistent cmp.

Lemma consistent_flip (a b : A) : 0 < cmp a b -> cmp b a <= 0.
Proof. destruct Hcmp as [Hs _]. specialize (Hs a b). lia. Qed.

Lemma insert_by_ordered (x : A) (l : list A) :
  ordered cmp l -> ordered cmp (insert_by cmp x l).
Proof.
  unfold ordered. induction 1 as [|y l Hl IH Hy]; simpl.
  - repeat constructor.
  - destruct (Z.leb_spec (cmp x y) 0) as [Hxy|Hxy].
    + constructor; [by constructor|].
      constructor; [done|].
      eapply Forall_impl; [exact Hy|].
      intros b Hb. destruct Hcmp as [_ Ht]. by apply (Ht x y b).
    + constructor; [done|].
      rewrite insert_by_perm. constructor; [|done].
      by apply consistent_flip.
Qed.

Lemma sort_by_ordered (l : list A) : ordered cmp (sort_by cmp l).
Proof.
  induction l as [|x l IH]; simpl; [constructor|].
  by apply insert_by_ordered.
Qed.
End SortFacts.

Lemma StronglySorted_weaken {A : Type} (R R' : A -> A -> Prop) (l : list A) :
  (forall a b, R a b -> R' a b) -> StronglySorted R l -> StronglySorted R' l.
Proof.
  intros HR. induction 1 as [|a l Hl IH Ha]; constructor; [done|].
  eapply Forall_impl; [exact Ha|]. auto.
Qed.

Lemma consistent_difference {A : Type} (f : A -> Z) :
  consistent (fun a b => f a - f b).
Proof. split; intros; lia. Qed.

Lemma consistent_opp {A : Type} (cmp : A -> A -> Z) :
  consistent cmp -> consistent (fun a b => - cmp a b).
Proof.
  intros [Hs Ht]. split.
  - intros a b. rewrite !Z.sgn_opp, (Hs a b). lia.
  - intros a b c Hab Hbc.
    assert (cmp c b <= 0) by (specialize (Hs b c); lia).
    assert (cmp b a <= 0) by (specialize (Hs a b); lia).
    assert (cmp c a <= 0) by eauto.
    specialize (Hs a c). lia.
Qed.

Lemma consistent_on {A B : Type} (f : A -> B) (cmp : B -> B -> Z) :
  consistent cmp -> consistent (fun a b => cmp (f a) (f b)).
Proof. intros [Hs Ht]. split; intros; eauto. Qed.

Lemma unit_compare_consistent : consistent unit_compare.
Proof.
  split.
  - intros a b. unfold unit_compare. rewrite (String.compare_antisym a b).
    by destruct (String.compare b a).
  - intros a b c. unfold unit_compare.
    destruct (String.compare a b) eqn:Hab; simpl; try lia; intros _.
    + apply String.compare_eq_iff in Hab. by subst.
    + destruct (String.compare b c) eqn:Hbc; simpl; try lia; intros _.
      * apply String.compare_eq_iff in Hbc. subst. by rewrite Hab.
      * apply OrderedTypeEx.String_as_OT.cmp_lt in Hab, Hbc.
        pose proof (OrderedTypeEx.String_as_OT.lt_trans _ _ _ Hab Hbc) as Hac.
        apply OrderedTypeEx.String_as_OT.cmp_lt in Hac.
        unfold OrderedTypeEx.String_as_OT.cmp in Hac. by rewrite Hac.
Qed.

(** ** Strings *)

Lemma append_cons (x : ascii) (a b : string) : String x a +:+ b = String x (a +:+ b).
Proof. reflexivity. Qed.

Lemma append_nil (b : string) : "" +:+ b = b.
Proof. reflexivity. Qed.

(** [simpl] leaves [+:+] alone; these two equations unfold it. *)
Ltac unfold_append := rewrite ?append_cons, ?append_nil in *.

Lemma append_assoc (a b c : string) : (a +:+ b) +:+ c = a +:+ b +:+ c.
Proof. induction a as [|x a IH]; unfold_append; [done|]. by rewrite IH. Qed.

Lemma append_empty_r (a : string) : a +:+ "" = a.
Proof. induction a as [|x a IH]; unfold_append; [done|]. by rewrite IH. Qed.

Lemma prefix_spec (q s : string) :
  String.prefix q s = true <-> exists v, s = q +:+ v.
Proof.
  revert s. induction q as [|x q IH]; intros s.
  - destruct s; simpl; split; eauto.
  - destruct s as [|y s]; simpl.
    + split; [done|]. by intros [v Hv].
    + destruct (ascii_dec x y) as [->|Hne].
      * rewrite IH. split; intros [v Hv]; exists v; unfold_append; congruence.
      * split; [done|]. intros [v Hv]. unfold_append. congruence.
Qed.

(** [includes] finds [q] as a run of consecutive code units of [s]. *)
Lemma includes_spec (s q : string) :
  includes s q = true <-> exists u v, s = u +:+ q +:+ v.
Proof.
  induction s as [|x s IH]; simpl.
  - destruct q as [|y q]; split; try done.
    + intros _. by exists "", "".
    + intros (u & v & Huv). by destruct u.
  - rewrite orb_true_iff, IH.
    change (match q with
            | "" => true
            | String a s1' => if ascii_dec a x then String.prefix s1' s else false
            end) with (String.prefix q (String x s)).
    rewrite prefix_spec. split.
    + intros [[v Hv]|(u & v & Huv)].
      * by exists "", v.
      * exists (String x u), v. unfold_append. by rewrite Huv.
    + intros (u & v & Huv). destruct u as [|y u]; unfold_append.
      * left. by exists v.
      * right. exists u, v. congruence.
Qed.

Lemma includes_empty (s : string) : includes s "" = true.
Proof. apply includes_spec. exists "", s. done. Qed.













(** ** The record store *)

Module DbFacts.
Import Db.

Lemma getAll_perm (m : gmap string Attendee) : getAll m ≡ₚ (map_to_list m).*2.
Proof. unfold getAll. by rewrite sort_by_perm. Qed.

Lemma elem_of_getAll (m : gmap string Attendee) (a : Attendee) :
  a ∈ getAll m <-> exists k, m !! k = Some a.
Proof.
  rewrite getAll_perm, list_elem_of_fmap. split.
  - intros [[k a'] [-> Hin]]. exists k. by apply elem_of_map_to_list.
  - intros [k Hk]. exists (k, a). split; [done|]. by apply elem_of_map_to_list.
Qed.

Lemma length_getAll (m : gmap string Attendee) : length (getAll m) = size m.
Proof. by rewrite getAll_perm, length_fmap, length_map_to_list. Qed.

Lemma keyed_empty : keyed ∅.
Proof. intros k a. by rewrite lookup_empty. Qed.

Lemma keyed_insert (m : gmap string Attendee) (a : Attendee) :
  keyed m -> keyed (<[NIK a := a]> m).
Proof.
  intros Hm k b. rewrite lookup_insert. case_decide; [|by apply Hm].
  intros [= <-]. done.
Qed.

Lemma keyed_delete (m : gmap string Attendee) (k : string) :
  keyed m -> keyed (delete k m).
Proof.
  intros Hm k' b. rewrite lookup_delete. case_decide; [done|]. by apply Hm.
Qed.

(** Under [keyed], the identifiers [getAll] lists are pairwise distinct. *)
Lemma NoDup_getAll (m : gmap string Attendee) :
  keyed m -> NoDup (NIK <$> getAll m).
Proof.
  intros Hm. rewrite getAll_perm.
  assert (NIK <$> (map_to_list m).*2 = (map_to_list m).*1) as ->.
  { rewrite <- list_fmap_compose. apply Forall_fmap_ext_1, Forall_forall.
    intros [k a] Hin. simpl. apply Hm. by apply elem_of_map_to_list. }
  apply NoDup_fst_map_to_list.
Qed.

(** Every operation keeps the store keyed. *)
Lemma addAttendee_keyed ev a w :
  keyed (attendees w) -> keyed (attendees (addAttendee ev a w).2).
Proof.
  intros Hm. unfold addAttendee.
  destruct (db w), ev; simpl; auto using keyed_insert.
Qed.

Lemma deleteAttendee_keyed ev k w :
  keyed (attendees w) -> keyed (attendees (deleteAttendee ev k w).2).
Proof.
  intros Hm. unfold deleteAttendee.
  destruct (db w), ev; simpl; auto using keyed_delete.
Qed.

Lemma clearAttendees_keyed ev w :
  keyed (attendees w) -> keyed (attendees (clearAttendees ev w).2).
Proof.
  intros Hm. unfold clearAttendees.
  destruct (db w), ev; simpl; auto using keyed_empty.
Qed.

Lemma step_keyed op w : keyed (attendees w) -> keyed (attendees (step w op)).
Proof.
  intros Hm. destruct op as [ev|ev a|ev|ev k|ev]; simpl.
  - unfold initDB. by destruct (db w), ev.
  - by apply addAttendee_keyed.
  - unfold getAllAttendees. by destruct (db w), ev.
  - by apply deleteAttendee_keyed.
  - by apply clearAttendees_keyed.
Qed.

(** [keyed] is an invariant: it holds of every world the calls lead to. *)
Lemma run_keyed ops w : keyed (attendees w) -> keyed (attendees (run ops w)).
Proof.
  revert w. induction ops as [|op ops IH]; intros w Hm; simpl; [done|].
  by apply IH, step_keyed.
Qed.

Lemma reachable_keyed ops : keyed (attendees (run ops initial)).
Proof. apply run_keyed, keyed_empty. Qed.

Lemma getAllAttendees_open (w : World) :
  db w = true ->
  getAllAttendees onsuccess w =
    (Resolved (sort_by (fun a b => timestamp b - timestamp a) (getAll (attendees w))),
     request CallGetAll w).
Proof. intros Hdb. unfold getAllAttendees. by rewrite Hdb. Qed.

Lemma addAll_db rs w : db w = true -> db (addAll rs w) = true.
Proof.
  intros Hdb. induction rs as [|r rs IH]; simpl; [done|].
  unfold addAttendee. by rewrite IH.
Qed.

Lemma sort_descending (l : list Attendee) :
  descending (sort_by (fun a b => timestamp b - timestamp a) l).
Proof.
  unfold descending.
  eapply StronglySorted_weaken;
    [|apply (sort_by_ordered (fun a b : Attendee => timestamp b - timestamp a))].
  - intros a b. simpl. lia.
  - split; intros; lia.
Qed.

End DbFacts.

Module DbOrder.
Import Db DbFacts.

Lemma addAll_attendees rs w :
  db w = true -> attendees (addAll rs w) = putAll rs (attendees w).
Proof.
  intros Hdb. induction rs as [|r rs IH]; simpl; [done|].
  unfold addAttendee. rewrite (addAll_db rs w Hdb). simpl. by rewrite IH.
Qed.

(** Records with distinct identifiers end in the same store whatever the
    order they were put in. *)
Lemma putAll_perm rs rs' m :
  rs ≡ₚ rs' -> NoDup (NIK <$> rs) -> putAll rs m = putAll rs' m.
Proof.
  induction 1 as [|x l l' Hp IH|x y l|l l' l'' Hp1 IH1 Hp2 IH2]; simpl; intros Hnd.
  - done.
  - apply NoDup_cons in Hnd as [_ Hnd]. by rewrite IH.
  - apply NoDup_cons in Hnd as [Hy _].
    apply insert_insert_ne. intros Heq. apply Hy. rewrite Heq. left.
  - rewrite IH1 by done. apply IH2. by rewrite <- Hp1.
Qed.
End DbOrder.

(* ------------------------------------------------------------------ *)
(** ** The record store: what the specification states *)

Module StoreSpec.
Import Db DbFacts DbOrder Examples.

Lemma keyed_w_jane : keyed (attendees w_jane).
Proof. apply (keyed_insert ∅ jane), keyed_empty. Qed.

(** C1. On an open store, a successful [addAttendee R] stores [R] under
    its identifier and resolves with [R]; [getAllAttendees] then lists
    [R], and lists it as the only record of that identifier: the other
    records are as before, and a prior record of the same identifier is
    replaced where it was, the number of records unchanged. *)
Theorem addAttendee_upsert (w : World) (R : Attendee) :
  db w = true ->
  keyed (attendees w) ->
  exists w' l,
    addAttendee onsuccess R w = (Resolved R, w')
    /\ attendees w' = <[NIK R := R]> (attendees w)
    /\ attendees w' !! NIK R = Some R
    /\ getAllAttendees onsuccess w' = (Resolved l, request CallGetAll w')
    /\ R ∈ l
    /\ NoDup (NIK <$> l)
    /\ (forall a, a ∈ l -> NIK a = NIK R -> a = R)
    /\ (forall a, NIK a <> NIK R -> (a ∈ l <-> a ∈ getAll (attendees w)))
    /\ (forall prior, attendees w !! NIK R = Some prior ->
          length l = length (getAll (attendees w))
          /\ (Nama prior <> Nama R -> prior ∉ l)).
Proof.
  intros Hdb Hkeyed.
  set (m' := <[NIK R := R]> (attendees w)).
  assert (keyed m') as Hkeyed' by (by apply keyed_insert).
  assert (forall a, a ∈ sort_by (fun a b => timestamp b - timestamp a) (getAll m')
                    <-> exists k, m' !! k = Some a) as Hin.
  { intros a. by rewrite sort_by_elem_of, elem_of_getAll. }
  assert (forall a, a ∈ sort_by (fun a b => timestamp b - timestamp a) (getAll m')
                    -> NIK a = NIK R -> a = R) as Honly.
  { intros a [k Hk]%Hin HR. pose proof (Hkeyed' _ _ Hk) as <-.
    unfold m' in Hk. rewrite HR, lookup_insert_eq in Hk. congruence. }
  eexists _, _. unfold addAttendee. rewrite Hdb. simpl.
  split; [reflexivity|]. split; [reflexivity|].
  split; [apply lookup_insert_eq|].
  split; [by apply getAllAttendees_open|]. fold m'.
  split; [apply Hin; exists (NIK R); apply lookup_insert_eq|].
  split; [rewrite sort_by_perm; by apply NoDup_getAll|].
  split; [exact Honly|].
  split.
  - intros a Hne. rewrite Hin, elem_of_getAll. split; intros [k Hk].
    + exists k. unfold m' in Hk. rewrite lookup_insert_ne in Hk; [done|].
      intros <-. apply Hne. by apply Hkeyed'.
    + exists k. unfold m'. rewrite lookup_insert_ne; [done|].
      intros <-. apply Hne. by apply Hkeyed.
  - intros prior Hprior. split.
    + rewrite sort_by_length, !length_getAll. by apply map_size_insert_Some.
    + intros Hne Hl. apply Hne. f_equal. apply Honly; [done|]. by apply Hkeyed.
Qed.

Lemma addAttendee_upsert_witness :
  db w_jane = true /\ keyed (attendees w_jane)
  /\ attendees w_jane !! NIK janet = Some jane
  /\ exists w' l,
      addAttendee onsuccess janet w_jane = (Resolved janet, w')
      /\ getAllAttendees onsuccess w' = (Resolved l, request CallGetAll w')
      /\ janet ∈ l /\ (jane ∉ l) /\ length l = length (getAll (attendees w_jane)).
Proof.
  split; [reflexivity|]. split; [exact keyed_w_jane|].
  split; [apply lookup_insert_eq|].
  destruct (addAttendee_upsert w_jane janet eq_refl keyed_w_jane)
    as (w' & l & Hadd & _ & _ & Hget & Hin & _ & _ & _ & Hprior).
  destruct (Hprior jane (lookup_insert_eq _ _ _)) as [Hlen Hout].
  exists w', l.
  split; [exact Hadd|]. split; [exact Hget|]. split; [exact Hin|].
  split; [|exact Hlen]. apply Hout. discriminate.
Defined.

(** C2. On an open store, a successful [getAllAttendees] resolves with
    all the stored records, each once, in descending order of
    [timestamp]: the list it returns is already sorted. That holds after
    any run of insertions, and records of distinct identifiers give the
    same list in whatever order they were inserted. *)
Theorem getAllAttendees_descending (w : World) :
  db w = true ->
  exists l,
    getAllAttendees onsuccess w = (Resolved l, request CallGetAll w)
    /\ l ≡ₚ (map_to_list (attendees w)).*2
    /\ (forall a, a ∈ l <-> exists k, attendees w !! k = Some a)
    /\ StronglySorted (fun a b => timestamp a >= timestamp b) l
    /\ (forall rs, exists l',
          (getAllAttendees onsuccess (addAll rs w)).1 = Resolved l'
          /\ StronglySorted (fun a b => timestamp a >= timestamp b) l'
          /\ forall rs', rs ≡ₚ rs' -> NoDup (NIK <$> rs) ->
               (getAllAttendees onsuccess (addAll rs' w)).1 = Resolved l').
Proof.
  intros Hdb. eexists. split; [by apply getAllAttendees_open|].
  split; [by rewrite sort_by_perm, getAll_perm|].
  split; [intros a; by rewrite sort_by_elem_of, elem_of_getAll|].
  split; [apply sort_descending|].
  intros rs. eexists.
  rewrite (getAllAttendees_open _ (addAll_db rs w Hdb)). simpl.
  split; [reflexivity|]. split; [apply sort_descending|].
  intros rs' Hp Hnd.
  rewrite (getAllAttendees_open _ (addAll_db rs' w Hdb)). simpl.
  rewrite !addAll_attendees by done. by rewrite (putAll_perm rs rs').
Qed.

Lemma getAllAttendees_descending_witness :
  db w_jane = true
  /\ exists l,
      getAllAttendees onsuccess w_jane = (Resolved l, request CallGetAll w_jane)
      /\ (forall a, a ∈ l <-> exists k, attendees w_jane !! k = Some a)
      /\ StronglySorted (fun a b => timestamp a >= timestamp b) l
      /\ exists l',
          (getAllAttendees onsuccess (addAll [alan; janet] w_jane)).1 = Resolved l'
          /\ (getAllAttendees onsuccess (addAll [janet; alan] w_jane)).1 = Resolved l'.
Proof.
  split; [reflexivity|].
  destruct (getAllAttendees_descending w_jane eq_refl)
    as (l & Hget & _ & Hin & Hsorted & Hrs).
  exists l. split; [exact Hget|]. split; [exact Hin|]. split; [exact Hsorted|].
  destruct (Hrs [alan; janet]) as (l' & Hl' & _ & Hperm).
  exists l'. split; [exact Hl'|].
  apply Hperm; [apply Permutation_swap|].
  apply NoDup_cons. split; [|apply NoDup_singleton].
  intros Hin'%list_elem_of_singleton. discriminate.
Defined.

(** C6. On a store that was not opened, [addAttendee], [getAllAttendees],
    [deleteAttendee] and [clearAttendees] reject with DB not initialized,
    however the engine would have answered, and leave the world as it
    was: no request is made. *)
Theorem not_initialized (w : World) (ev : Fired) (attendee : Attendee) (nik : string) :
  db w = false ->
  addAttendee ev attendee w = (Rejected "DB not initialized", w)
  /\ getAllAttendees ev w = (Rejected "DB not initialized", w)
  /\ deleteAttendee ev nik w = (Rejected "DB not initialized", w)
  /\ clearAttendees ev w = (Rejected "DB not initialized", w).
Proof.
  intros Hdb.
  unfold addAttendee, getAllAttendees, deleteAttendee, clearAttendees.
  rewrite Hdb. simpl. repeat split.
Qed.

Lemma not_initialized_witness :
  db w_closed = false
  /\ addAttendee onsuccess jane w_closed = (Rejected "DB not initialized", w_closed)
  /\ getAllAttendees onsuccess w_closed = (Rejected "DB not initialized", w_closed)
  /\ deleteAttendee onsuccess "A001" w_closed = (Rejected "DB not initialized", w_closed)
  /\ clearAttendees onsuccess w_closed = (Rejected "DB not initialized", w_closed).
Proof.
  split; [reflexivity|].
  exact (not_initialized w_closed onsuccess jane "A001" eq_refl).
Defined.

(** C8. [initDB] on an open store resolves with true at once: it makes
    no request to open the database and leaves the world as it was,
    whatever the engine would have answered. So a call that follows a
    call that resolved changes nothing. *)
Theorem initDB_idempotent (w : World) (ev : Fired) :
  (db w = true -> initDB ev w = (Resolved true, w))
  /\ (forall ev0 w0 v, initDB ev0 w0 = (Resolved v, w) ->
        initDB ev w = (Resolved true, w)).
Proof.
  assert (db w = true -> initDB ev w = (Resolved true, w)) as Hopen.
  { intros Hdb. unfold initDB. by rewrite Hdb. }
  split; [exact Hopen|].
  intros ev0 w0 v Hinit. apply Hopen.
  unfold initDB in Hinit. destruct (db w0) eqn:Hdb0.
  - by inversion Hinit; subst.
  - destruct ev0; by inversion Hinit.
Qed.

Lemma initDB_idempotent_witness :
  db w_jane = true
  /\ initDB onsuccess w_closed = (Resolved true, mkWorld true ∅ [CallOpen])
  /\ initDB onerror w_jane = (Resolved true, w_jane)
  /\ initDB onsuccess (mkWorld true ∅ [CallOpen])
     = (Resolved true, mkWorld true ∅ [CallOpen]).
Proof.
  split; [reflexivity|]. split; [reflexivity|].
  split.
  - exact (proj1 (initDB_idempotent w_jane onerror) eq_refl).
  - exact (proj2 (initDB_idempotent (mkWorld true ∅ [CallOpen]) onsuccess)
                 onsuccess w_closed true eq_refl).
Defined.

(** C9. On an open store, a successful [deleteAttendee] of an identifier
    under which nothing is stored resolves with that identifier, leaves
    the records as they were, and [getAllAttendees] then returns what it
    returned before. *)
Theorem deleteAttendee_absent (w : World) (nik : string) :
  db w = true ->
  attendees w !! nik = None ->
  exists w',
    deleteAttendee onsuccess nik w = (Resolved nik, w')
    /\ db w' = true
    /\ attendees w' = attendees w
    /\ forall ev, (getAllAttendees ev w').1 = (getAllAttendees ev w).1.
Proof.
  intros Hdb Hnone. eexists. unfold deleteAttendee. rewrite Hdb. simpl.
  split; [reflexivity|]. split; [done|].
  split; [by apply delete_id|].
  intros ev. unfold getAllAttendees. simpl. rewrite Hdb. simpl.
  destruct ev; simpl; [|done]. by rewrite delete_id.
Qed.

Lemma deleteAttendee_absent_witness :
  db w_jane = true /\ attendees w_jane !! "A002" = None
  /\ exists w',
      deleteAttendee onsuccess "A002" w_jane = (Resolved "A002", w')
      /\ db w' = true
      /\ attendees w' = attendees w_jane
      /\ forall ev, (getAllAttendees ev w').1 = (getAllAttendees ev w_jane).1.
Proof.
  assert (attendees w_jane !! "A002" = None) as Hnone.
  { simpl. rewrite lookup_insert_ne by discriminate. apply lookup_empty. }
  split; [reflexivity|]. split; [exact Hnone|].
  exact (deleteAttendee_absent w_jane "A002" eq_refl Hnone).
Defined.
End StoreSpec.

(* ------------------------------------------------------------------ *)
(** ** The list projection and the export *)

Module ViewSpec.
Import Db App Examples.

Lemma comparison_consistent (localeCompare : string -> string -> Z) (sortKey : SortKey) :
  consistent localeCompare -> consistent (comparison localeCompare sortKey).
Proof.
  intros Hc. destruct sortKey; simpl.
  - apply (consistent_difference timestamp).
  - apply (consistent_on Nama localeCompare Hc).
  - apply (consistent_on NIK localeCompare Hc).
Qed.

Lemma filter_all {A : Type} (f : A -> bool) (l : list A) :
  (forall a, f a = true) -> List.filter f l = l.
Proof.
  intros Hf. induction l as [|a l IH]; simpl; [done|]. by rewrite Hf, IH.
Qed.

(** C7. The list projection is a permutation of the records of the list
    whose [Nama] or [NIK], in lower case, holds the search text in lower
    case as a run of consecutive code units; it is in the order of the
    sort key: by the time values for [timestamp], by [localeCompare] of
    the names for [Nama] and of the identifiers for [NIK], ascending or
    descending as asked; the empty search text keeps every record. The
    projection is a function of its arguments: the list it is given is
    not changed. With Jane (A1, time 2) and Alan (A2, time 1): the text
    jan and the names ascending give Jane alone; no text and the time
    ascending give Alan then Jane, descending Jane then Alan; the names
    ascending give Alan then Jane when [localeCompare] puts Jane after
    Alan, and the identifiers descending give A2 then A1 when it puts A1
    before A2. *)
Theorem list_projection
        (toLowerCase : string -> string) (localeCompare : string -> string -> Z)
        (attendanceList : list Attendee) (searchQuery : string)
        (sortKey : SortKey) (sortOrder : SortOrder) :
  consistent localeCompare ->
  toLowerCase "" = "" ->
  let result :=
    sortedAndFilteredAttendees toLowerCase localeCompare
                               attendanceList searchQuery sortKey sortOrder in
  let q := toLowerCase searchQuery in
  result ≡ₚ List.filter
              (fun a => includes (toLowerCase (Nama a)) q
                        || includes (toLowerCase (NIK a)) q) attendanceList
  /\ (forall a, a ∈ result <->
                a ∈ attendanceList
                /\ ((exists u v, toLowerCase (Nama a) = u +:+ q +:+ v)
                    \/ (exists u v, toLowerCase (NIK a) = u +:+ q +:+ v)))
  /\ StronglySorted
       (fun a b => match sortKey, sortOrder with
                   | SortTimestamp, asc => timestamp a <= timestamp b
                   | SortTimestamp, desc => timestamp a >= timestamp b
                   | SortNama, asc => localeCompare (Nama a) (Nama b) <= 0
                   | SortNama, desc => localeCompare (Nama a) (Nama b) >= 0
                   | SortNIK, asc => localeCompare (NIK a) (NIK b) <= 0
                   | SortNIK, desc => localeCompare (NIK a) (NIK b) >= 0
                   end) result
  /\ (searchQuery = "" -> result ≡ₚ attendanceList)
  /\ sortedAndFilteredAttendees latin1_toLowerCase localeCompare
                                [jane_A1; alan_A2] "jan" SortNama asc = [jane_A1]
  /\ sortedAndFilteredAttendees latin1_toLowerCase localeCompare
                                [jane_A1; alan_A2] "" SortTimestamp asc
     = [alan_A2; jane_A1]
  /\ sortedAndFilteredAttendees latin1_toLowerCase localeCompare
                                [jane_A1; alan_A2] "" SortTimestamp desc
     = [jane_A1; alan_A2]
  /\ (0 < localeCompare "Jane" "Alan" ->
      sortedAndFilteredAttendees latin1_toLowerCase localeCompare
                                 [jane_A1; alan_A2] "" SortNama asc
      = [alan_A2; jane_A1])
  /\ (localeCompare "A1" "A2" < 0 ->
      sortedAndFilteredAttendees latin1_toLowerCase localeCompare
                                 [jane_A1; alan_A2] "" SortNIK desc
      = [alan_A2; jane_A1]).
Proof.
  intros Hc Hempty result q. unfold result, sortedAndFilteredAttendees. fold q.
  split; [apply sort_by_perm|].
  split.
  { intros a. rewrite sort_by_elem_of, list_elem_of_In, filter_In.
    rewrite <- list_elem_of_In, orb_true_iff, !includes_spec. done. }
  split.
  { pose proof (comparison_consistent localeCompare sortKey Hc) as Hk.
    destruct sortOrder.
    - eapply StronglySorted_weaken; [|apply (sort_by_ordered _ Hk)].
      intros a b. destruct sortKey; simpl; lia.
    - eapply StronglySorted_weaken;
        [|apply (sort_by_ordered _ (consistent_opp _ Hk))].
      intros a b. destruct sortKey; simpl; lia. }
  split.
  { intros ->. rewrite sort_by_perm. unfold q. rewrite Hempty.
    rewrite filter_all; [done|]. intros a. by rewrite includes_empty. }
  split; [reflexivity|]. split; [reflexivity|]. split; [reflexivity|].
  split.
  - intros Hlt. simpl.
    change (Nama jane_A1) with "Jane". change (Nama alan_A2) with "Alan".
    by destruct (Z.leb_spec (localeCompare "Jane" "Alan") 0); [lia|].
  - intros Hlt. simpl.
    change (NIK jane_A1) with "A1". change (NIK alan_A2) with "A2".
    by destruct (Z.leb_spec (- localeCompare "A1" "A2") 0); [lia|].
Qed.

Lemma list_projection_witness :
  consistent unit_compare /\ latin1_toLowerCase "" = ""
  /\ (forall a,
        a ∈ sortedAndFilteredAttendees latin1_toLowerCase unit_compare
                                       [jane_A1; alan_A2] "AN" SortNIK desc <->
        a ∈ [jane_A1; alan_A2]
        /\ ((exists u v, latin1_toLowerCase (Nama a) = u +:+ "an" +:+ v)
            \/ (exists u v, latin1_toLowerCase (NIK a) = u +:+ "an" +:+ v)))
  /\ StronglySorted (fun a b => unit_compare (NIK a) (NIK b) >= 0)
       (sortedAndFilteredAttendees latin1_toLowerCase unit_compare
                                   [jane_A1; alan_A2] "AN" SortNIK desc)
  /\ 0 < unit_compare "Jane" "Alan"
  /\ sortedAndFilteredAttendees latin1_toLowerCase unit_compare
                                [jane_A1; alan_A2] "" SortNama asc
     = [alan_A2; jane_A1].
Proof.
  split; [exact unit_compare_consistent|]. split; [reflexivity|].
  destruct (list_projection latin1_toLowerCase unit_compare [jane_A1; alan_A2] "AN"
                            SortNIK desc unit_compare_consistent eq_refl)
    as (_ & Hin & Hsorted & _ & _ & _ & _ & Hnames & _).
  split; [exact Hin|]. split; [exact Hsorted|].
  split; [reflexivity|]. apply Hnames. reflexivity.
Defined.

Section CsvExport.
Variable toLocaleString : Z -> string.

(** The lines of the export: the header line, then a line for each
    record in ascending order of [timestamp]; on each line [Nama] and the
    time stand between double quotes, the double quotes of [Nama]
    doubled, and [NIK] stands as it is. *)
Lemma csvLines_shape (attendanceList : list Attendee) :
  exists sorted,
    sorted ≡ₚ attendanceList
    /\ StronglySorted (fun a b => timestamp a <= timestamp b) sorted
    /\ csvLines toLocaleString attendanceList =
       "NIK,Nama,Timestamp"
         :: map (fun a => NIK a +:+ ","
                            +:+ quoted (replaceQuotes (Nama a)) +:+ ","
                            +:+ quoted (toLocaleString (timestamp a)))
                sorted.
Proof.
  exists (sort_by (fun a b => timestamp a - timestamp b) attendanceList).
  split; [apply sort_by_perm|]. split.
  - eapply StronglySorted_weaken;
      [|apply (sort_by_ordered _ (consistent_difference timestamp))].
    intros a b. simpl. lia.
  - unfold csvLines. f_equal. rewrite map_map. apply map_ext.
    intros a. reflexivity.
Qed.

Lemma quoted_john :
  quoted (replaceQuotes john)
  = String dquote ("Jo" +:+ String dquote (String dquote ("hn" +:+ String dquote ""))).
Proof. reflexivity. Qed.
End CsvExport.

(** C4. A record entered with the identifier A,1 is exported as the line
    A,1 followed by the quoted name and the quoted time: the identifier
    is written as it is, with neither quotes around it nor its quotes
    doubled, so that this line has four fields under a header of three.
    For any record the first field of the line is the identifier itself. *)
Theorem export_identifier_unquoted
        (toLocaleString : Z -> string) (encodeURI : string -> string) (date : string) :
  let line := "A,1," +:+ quoted "Jane" +:+ "," +:+ quoted (toLocaleString 0) in
  handleExportCSV toLocaleString encodeURI date exporting
  = (showNotification "Attendance list exported." success exporting,
     Some (mkLink (encodeURI ("data:text/csv;charset=utf-8,"
                                +:+ "NIK,Nama,Timestamp" +:+ newline +:+ line))
                  ("attendance_list_" +:+ date +:+ ".csv")))
  /\ csvLines toLocaleString [comma_record] = [ "NIK,Nama,Timestamp"; line ]
  /\ line <> quoted (replaceQuotes "A,1") +:+ "," +:+ quoted "Jane" +:+ ","
               +:+ quoted (toLocaleString 0)
  /\ (forall a, exists fields, csvRow toLocaleString a = NIK a :: fields).
Proof.
  intros line. split; [reflexivity|]. split; [reflexivity|]. split.
  - unfold line, quoted. unfold_append. discriminate.
  - intros a. by eexists.
Qed.
End ViewSpec.

(* ------------------------------------------------------------------ *)
(** ** The two ways in: scanning and manual entry *)

Module IngestSpec.
Import Db App Examples.


Lemma isDuplicate_spec (attendanceList : list Attendee) (nik : string) :
  isDuplicate attendanceList nik = true <->
  exists attendee, attendee ∈ attendanceList /\ NIK attendee = nik.
Proof.
  unfold isDuplicate. rewrite existsb_exists. split.
  - intros (a & Hin & Heq). exists a. split; [by apply list_elem_of_In|].
    by apply String.eqb_eq.
  - intros (a & Hin & Heq). exists a. split; [by apply list_elem_of_In|].
    by apply String.eqb_eq.
Qed.

Section Flows.
Variable JSON_parse : string -> option JSON.
Variable ToString : JSON -> string.



(** C3. The Duplicate Guard answers true exactly when a record of the
    working set has the identifier: with Jane checked in as A001 it
    answers true for A001 and false for A002. When a scan reaches the
    guard (no scan is being processed and the payload is valid) and
    the guard answers true, the handler shows the notification that
    the attendee is already checked in and returns with the world, so
    with no request to the store, and the attendance list as they
    were; so does the manual path when the trimmed fields are not empty
    and the guard answers true for the trimmed identifier. *)
Theorem duplicate_guard :
  (forall attendanceList nik,
      isDuplicate attendanceList nik = true <->
      exists attendee, attendee ∈ attendanceList /\ NIK attendee = nik)
  /\ (forall t,
        isDuplicate [mkAttendee "A001" "Jane" t] "A001" = true
        /\ isDuplicate [mkAttendee "A001" "Jane" t] "A002" = false)
  /\ (forall now ev text s data nik nama,
        isProcessingScan s = false ->
        JSON_parse text = Some data ->
        get data "NIK" = inr (Some (JString nik)) ->
        get data "Nama" = inr nama ->
        nik <> "" ->
        truthy nama = true ->
        isDuplicate (attendanceList s) nik = true ->
        exists s',
          handleScanSuccess JSON_parse ToString now ev text s = Returned s'
          /\ notification s' =
             Some (mkNotification
                     (interpolate ToString nama +:+ " is already checked in.") info)
          /\ world s' = world s
          /\ attendanceList s' = attendanceList s)
  /\ (forall now ev s,
        trim (manualNIK s) <> "" ->
        trim (manualNama s) <> "" ->
        isDuplicate (attendanceList s) (trim (manualNIK s)) = true ->
        let s' := handleManualAdd now ev s in
        notification s' =
          Some (mkNotification
                  (trim (manualNama s) +:+ " (NIK: " +:+ trim (manualNIK s)
                     +:+ ") is already checked in.") info)
        /\ world s' = world s
        /\ attendanceList s' = attendanceList s).
Proof.
  split; [exact isDuplicate_spec|].
  split; [done|].
  split.
  - intros now ev text s data nik nama Hidle Hparse Hnik Hnama Hne Htruthy Hdup.
    unfold handleScanSuccess, scanTry. rewrite Hidle, Hparse, Hnik, Hnama.
    simpl. apply String.eqb_neq in Hne. rewrite Hne, Htruthy. simpl.
    unfold isDuplicate in Hdup. rewrite Hdup. by eexists.
  - intros now ev s Hnik Hnama Hdup. unfold handleManualAdd.
    apply String.eqb_neq in Hnik, Hnama. rewrite Hnik, Hnama, Hdup. done.
Qed.
End Flows.



Lemma duplicate_guard_witness :
  (exists s',
      handleScanSuccess parse_examples toString_examples
                        2000 onsuccess payload_jane idle = Returned s'
      /\ notification s' = Some (mkNotification "Jane is already checked in." info)
      /\ world s' = world idle
      /\ attendanceList s' = attendanceList idle)
  /\ (let s' := handleManualAdd 2000 onsuccess typing in
      notification s' =
        Some (mkNotification "Jane (NIK: A001) is already checked in." info)
      /\ world s' = world typing
      /\ attendanceList s' = attendanceList typing).
Proof.
  destruct (duplicate_guard parse_examples toString_examples)
    as (_ & _ & Hscan & Hmanual).
  split.
  - apply (Hscan 2000 onsuccess payload_jane idle
                 (JObject [("NIK", JString "A001"); ("Nama", JString "Jane")])
                 "A001" (Some (JString "Jane")));
      first [reflexivity | discriminate].
  - apply (Hmanual 2000 onsuccess typing); first [reflexivity | discriminate].
Defined.


End IngestSpec.

(* ------------------------------------------------------------------ *)
(** * Further properties *)

(** ** More on sorting: filtering, and the one sorted order *)

Section SortMore.
Context {A : Type}.
Variable cmp : A -> A -> Z.

Lemma insert_by_first (x : A) (l : list A) :
  Forall (fun y => cmp x y <= 0) l -> insert_by cmp x l = x :: l.
Proof.
  destruct 1 as [|y l Hy Hl]; simpl; [done|].
  by destruct (Z.leb_spec (cmp x y) 0); [|lia].
Qed.

Lemma ordered_filter (p : A -> bool) (l : list A) :
  ordered cmp l -> ordered cmp (List.filter p l).
Proof.
  unfold ordered. induction 1 as [|a l Hl IH Ha]; simpl; [constructor|].
  destruct (p a); [|done]. constructor; [done|].
  apply Forall_forall. intros b [Hb _]%list_elem_of_In%filter_In.
  rewrite Forall_forall in Ha. by apply Ha, list_elem_of_In.
Qed.

(** Two sorted lists with the same elements are the same list, when no
    two different elements are each not after the other. *)
Lemma ordered_perm_eq (l l' : list A) :
  (forall a b, a ∈ l -> b ∈ l -> cmp a b <= 0 -> cmp b a <= 0 -> a = b) ->
  ordered cmp l -> ordered cmp l' -> l ≡ₚ l' -> l = l'.
Proof.
  unfold ordered. intros Hanti Hl. revert l' Hanti.
  induction Hl as [|x t Ht IH Hx]; intros l' Hanti Hl' Hp.
  - by apply Permutation_nil in Hp.
  - destruct Hl' as [|y t' Ht' Hy].
    { by apply Permutation_sym, Permutation_nil in Hp. }
    assert (x = y) as <-.
    { assert (x ∈ y :: t') as Hxin by (rewrite <- Hp; left).
      assert (y ∈ x :: t) as Hyin by (rewrite Hp; left).
      apply elem_of_cons in Hxin as [?|Hxin]; [done|].
      apply elem_of_cons in Hyin as [?|Hyin]; [done|].
      rewrite Forall_forall in Hx, Hy.
      apply Hanti; [left|by right|by apply Hx|by apply Hy]. }
    f_equal. apply IH; [|done|by apply Permutation_cons_inv in Hp].
    intros a b Ha Hb. apply Hanti; by right.
Qed.

Hypothesis Hcmp : consistent cmp.

Lemma filter_insert_by (p : A -> bool) (x : A) (l : list A) :
  ordered cmp l ->
  List.filter p (insert_by cmp x l)
  = if p x then insert_by cmp x (List.filter p l) else List.filter p l.
Proof.
  unfold ordered. induction 1 as [|y l Hl IH Hy]; simpl.
  - by destruct (p x).
  - destruct (Z.leb_spec (cmp x y) 0) as [Hxy|Hxy]; simpl.
    + destruct (p x) eqn:Hpx; [|done]. destruct (p y) eqn:Hpy; simpl.
      * by destruct (Z.leb_spec (cmp x y) 0); [|lia].
      * symmetry. apply insert_by_first, Forall_forall.
        intros b [Hb _]%list_elem_of_In%filter_In.
        rewrite Forall_forall in Hy. destruct Hcmp as [_ Ht].
        apply (Ht x y b); [done|]. by apply Hy, list_elem_of_In.
    + destruct (p y) eqn:Hpy; simpl; rewrite IH; destruct (p x); try done.
      simpl. by destruct (Z.leb_spec (cmp x y) 0); [lia|].
Qed.

(** Sorting what is left after filtering, or filtering what was sorted. *)
Lemma filter_sort_by (p : A -> bool) (l : list A) :
  List.filter p (sort_by cmp l) = sort_by cmp (List.filter p l).
Proof.
  induction l as [|x l IH]; simpl; [done|]. fold (sort_by cmp l).
  rewrite filter_insert_by by (by apply sort_by_ordered).
  destruct (p x); simpl; by rewrite IH.
Qed.
End SortMore.

Lemma filter_perm {A : Type} (p : A -> bool) (l l' : list A) :
  l ≡ₚ l' -> List.filter p l ≡ₚ List.filter p l'.
Proof.
  induction 1 as [|x l l' Hp IH|x y l|l l' l'' Hp1 IH1 Hp2 IH2]; simpl.
  - done.
  - destruct (p x); by rewrite IH.
  - destruct (p x), (p y); try done. apply Permutation_swap.
  - by rewrite IH1.
Qed.

Lemma unit_compare_antisym (a b : string) :
  unit_compare a b <= 0 -> unit_compare b a <= 0 -> a = b.
Proof.
  unfold unit_compare. rewrite (String.compare_antisym b a).
  destruct (String.compare a b) eqn:Hab; simpl; try lia.
  intros _ _. by apply String.compare_eq_iff.
Qed.

(** ** More on the record store *)

Module DbMore.
Import Db DbFacts Observations.

Lemma byKey_consistent : consistent byKey.
Proof. apply (consistent_on fst unit_compare unit_compare_consistent). Qed.

Lemma map_to_list_delete_filter (m : gmap string Attendee) (nik : string) :
  map_to_list (delete nik m) ≡ₚ List.filter (otherKey nik) (map_to_list m).
Proof.
  apply NoDup_Permutation.
  - apply NoDup_map_to_list.
  - apply NoDup_ListNoDup, List.NoDup_filter, NoDup_ListNoDup, NoDup_map_to_list.
  - intros [i x]. rewrite elem_of_map_to_list, list_elem_of_In, filter_In.
    rewrite <- list_elem_of_In, elem_of_map_to_list, lookup_delete.
    unfold otherKey. simpl. rewrite negb_true_iff, String.eqb_neq.
    case_decide as Hi; [subst i|]; split; try done; tauto.
Qed.

Lemma fmap_filter_keyed (nik : string) (l : list (string * Attendee)) :
  Forall (fun x => NIK x.2 = x.1) l ->
  (List.filter (otherKey nik) l).*2 = List.filter (otherNIK nik) (l.*2).
Proof.
  induction 1 as [|[k a] l Hk Hl IH]; simpl; [done|].
  assert (otherKey nik (k, a) = otherNIK nik a) as ->.
  { unfold otherKey, otherNIK. simpl in *. by rewrite Hk. }
  destruct (otherNIK nik a); simpl; [f_equal|]; exact IH.
Qed.

(** What the store lists after a key was deleted: what it listed before,
    without the record of that key and in the same order. *)
Lemma getAll_delete (m : gmap string Attendee) (nik : string) :
  keyed m -> getAll (delete nik m) = List.filter (otherNIK nik) (getAll m).
Proof.
  intros Hm. unfold getAll. fold byKey.
  rewrite <- fmap_filter_keyed.
  2:{ apply Forall_forall. intros [k a] Hin. simpl.
      apply sort_by_elem_of, elem_of_map_to_list in Hin. by apply Hm. }
  f_equal. apply (ordered_perm_eq byKey).
  - intros [i x] [j y] Hi Hj Hij Hji.
    apply sort_by_elem_of, elem_of_map_to_list in Hi, Hj.
    pose proof (unit_compare_antisym i j Hij Hji) as <-. congruence.
  - apply sort_by_ordered, byKey_consistent.
  - apply ordered_filter, sort_by_ordered, byKey_consistent.
  - rewrite sort_by_perm, map_to_list_delete_filter.
    apply filter_perm. by rewrite sort_by_perm.
Qed.

Lemma getAll_empty : getAll ∅ = [].
Proof. unfold getAll. by rewrite map_to_list_empty. Qed.

Lemma getAll_insert_fresh (m : gmap string Attendee) (a : Attendee) :
  m !! NIK a = None -> getAll (<[NIK a := a]> m) ≡ₚ a :: getAll m.
Proof.
  intros Hnone. rewrite !getAll_perm, map_to_list_insert by done. done.
Qed.

End DbMore.

Module StoreMore.
Import Db DbFacts DbMore Observations Examples.

(** X1. On an open store a successful [clearAttendees] leaves no record:
    the store is empty and stays open, and [getAllAttendees] then
    resolves with the empty list. *)
Theorem clearAttendees_then_getAll (w : World) :
  db w = true ->
  exists w',
    clearAttendees onsuccess w = (Resolved tt, w')
    /\ db w' = true
    /\ attendees w' = ∅
    /\ calls w' = CallClear :: calls w
    /\ (getAllAttendees onsuccess w').1 = Resolved [].
Proof.
  intros Hdb. eexists. unfold clearAttendees. rewrite Hdb. simpl.
  split; [reflexivity|]. split; [done|]. split; [done|]. split; [done|].
  unfold getAllAttendees. simpl. rewrite Hdb. simpl. by rewrite getAll_empty.
Qed.

Lemma clearAttendees_then_getAll_witness :
  db w_jane = true
  /\ exists w',
      clearAttendees onsuccess w_jane = (Resolved tt, w')
      /\ (getAllAttendees onsuccess w').1 = Resolved [].
Proof.
  split; [reflexivity|].
  destruct (clearAttendees_then_getAll w_jane eq_refl) as (w' & H1 & _ & _ & _ & H2).
  exists w'. split; [exact H1|exact H2].
Defined.

(** X2. On an open store a successful [deleteAttendee] takes the record
    of that identifier, and only it, out of what [getAllAttendees]
    returns: the list after is the list before without the records of
    that identifier, the others in the order they had. *)
Theorem deleteAttendee_removes_row (w : World) (nik : string) :
  db w = true ->
  keyed (attendees w) ->
  exists l w',
    (getAllAttendees onsuccess w).1 = Resolved l
    /\ deleteAttendee onsuccess nik w = (Resolved nik, w')
    /\ attendees w' !! nik = None
    /\ (getAllAttendees onsuccess w').1
       = Resolved (List.filter (fun a => negb (String.eqb (NIK a) nik)) l).
Proof.
  intros Hdb Hkeyed. eexists _, _.
  rewrite (getAllAttendees_open w Hdb). split; [reflexivity|].
  unfold deleteAttendee. rewrite Hdb. simpl. split; [reflexivity|].
  split; [apply lookup_delete_eq|].
  unfold getAllAttendees. simpl. rewrite Hdb. simpl. f_equal.
  rewrite (getAll_delete _ _ Hkeyed).
  symmetry. apply filter_sort_by. split; intros; lia.
Qed.

Lemma deleteAttendee_removes_row_witness :
  db w_jane = true /\ keyed (attendees w_jane)
  /\ exists l w',
      (getAllAttendees onsuccess w_jane).1 = Resolved l
      /\ deleteAttendee onsuccess "A001" w_jane = (Resolved "A001", w')
      /\ (getAllAttendees onsuccess w').1
         = Resolved (List.filter (fun a => negb (String.eqb (NIK a) "A001")) l).
Proof.
  assert (keyed (attendees w_jane)) as Hkeyed
      by apply (keyed_insert ∅ jane), keyed_empty.
  split; [reflexivity|]. split; [exact Hkeyed|].
  destruct (deleteAttendee_removes_row w_jane "A001" eq_refl Hkeyed)
    as (l & w' & H1 & H2 & _ & H3).
  exists l, w'. split; [exact H1|]. split; [exact H2|exact H3].
Defined.

(** X3. Requests that end in [onerror] change nothing that can be read
    back: after any run of operations whose requests all end that way,
    the store holds the records it held, is open or not as it was, and
    [getAllAttendees] returns what it would have returned. *)
Theorem failed_requests_change_nothing (ops : list Op) (w : World) :
  Forall (fun op => fails op = true) ops ->
  db (run ops w) = db w
  /\ attendees (run ops w) = attendees w
  /\ forall ev, (getAllAttendees ev (run ops w)).1 = (getAllAttendees ev w).1.
Proof.
  intros Hops.
  assert (db (run ops w) = db w /\ attendees (run ops w) = attendees w) as [Hdb Hat].
  { revert w. induction Hops as [|op ops Hop _ IH]; intros w; simpl; [done|].
    destruct (IH (step w op)) as [-> ->].
    destruct op as [ev|ev a|ev|ev k|ev]; unfold fails in Hop; simpl in Hop;
      destruct ev; try discriminate; simpl;
      unfold initDB, addAttendee, getAllAttendees, deleteAttendee, clearAttendees;
      destruct (db w) eqn:E; simpl; rewrite ?E; done. }
  split; [done|]. split; [done|].
  intros ev. unfold getAllAttendees. rewrite Hdb. destruct (db w); simpl; [|done].
  destruct ev; simpl; [|done]. by rewrite Hat.
Qed.

Lemma failed_requests_change_nothing_witness :
  Forall (fun op => fails op = true) [OpAdd onerror janet; OpClear onerror; OpInit onerror]
  /\ attendees (run [OpAdd onerror janet; OpClear onerror; OpInit onerror] w_jane)
     = attendees w_jane.
Proof.
  assert (Forall (fun op => fails op = true)
                 [OpAdd onerror janet; OpClear onerror; OpInit onerror]) as Hops
      by (repeat constructor).
  split; [exact Hops|].
  exact (proj1 (proj2 (failed_requests_change_nothing _ w_jane Hops))).
Defined.

(** X4. Until a call of [initDB] succeeds the store stays closed and
    untouched: after any run of operations none of which is a successful
    [initDB], a store that was not open is not open, holds the records it
    held, and the only requests made are the attempts to open it. *)
Theorem closed_until_opened (ops : list Op) (w : World) :
  db w = false ->
  Forall (fun op => opensStore op = false) ops ->
  db (run ops w) = false
  /\ attendees (run ops w) = attendees w
  /\ exists opens,
      calls (run ops w) = opens ++ calls w
      /\ Forall (fun c => c = CallOpen) opens
      /\ length opens = length (List.filter isInit ops).
Proof.
  intros Hdb Hops. revert w Hdb.
  induction Hops as [|op ops Hop _ IH]; intros w Hdb; simpl.
  - repeat split; try done. by exists [].
  - assert (db (step w op) = false /\ attendees (step w op) = attendees w
            /\ calls (step w op)
               = (if isInit op then [CallOpen] else []) ++ calls w)
      as (Hdb' & Hat' & Hcalls').
    { destruct op as [ev|ev a|ev|ev k|ev]; simpl;
        unfold initDB, addAttendee, getAllAttendees, deleteAttendee, clearAttendees;
        rewrite Hdb; simpl; try done.
      destruct ev; [discriminate Hop|done]. }
    destruct (IH _ Hdb') as (-> & -> & opens & -> & Hopens & Hlen).
    split; [done|]. split; [done|].
    exists (opens ++ (if isInit op then [CallOpen] else [])).
    rewrite Hcalls', <- app_assoc. split; [done|].
    destruct (isInit op); simpl.
    + split; [apply Forall_app; by repeat constructor|].
      rewrite length_app. simpl. lia.
    + rewrite app_nil_r. done.
Qed.

Lemma closed_until_opened_witness :
  db w_closed = false
  /\ Forall (fun op => opensStore op = false) [OpAdd onsuccess jane; OpInit onerror]
  /\ db (run [OpAdd onsuccess jane; OpInit onerror] w_closed) = false
  /\ attendees (run [OpAdd onsuccess jane; OpInit onerror] w_closed) = ∅.
Proof.
  assert (Forall (fun op => opensStore op = false)
                 [OpAdd onsuccess jane; OpInit onerror]) as Hops
      by (repeat constructor).
  split; [reflexivity|]. split; [exact Hops|].
  destruct (closed_until_opened _ w_closed eq_refl Hops) as (H1 & H2 & _).
  split; [exact H1|exact H2].
Defined.

(** X5. A store that is open stays open whatever is called, since the
    module has no way to close it; on it every operation but [initDB]
    makes exactly one request, and [initDB] makes none. *)
Theorem open_stays_open (ops : list Op) (w : World) :
  db w = true ->
  db (run ops w) = true
  /\ exists requests,
      calls (run ops w) = requests ++ calls w
      /\ length requests = length (List.filter (fun op => negb (isInit op)) ops).
Proof.
  intros Hdb. revert w Hdb. induction ops as [|op ops IH]; intros w Hdb; simpl.
  - split; [done|]. by exists [].
  - assert (db (step w op) = true
            /\ exists c, calls (step w op) = (if isInit op then [] else [c]) ++ calls w)
      as (Hdb' & c & Hcalls').
    { destruct op as [ev|ev a|ev|ev k|ev]; simpl;
        unfold initDB, addAttendee, getAllAttendees, deleteAttendee, clearAttendees;
        rewrite Hdb; simpl; destruct ev; simpl; eauto using CallOpen. }
    destruct (IH _ Hdb') as (-> & requests & -> & Hlen).
    split; [done|].
    exists (requests ++ (if isInit op then [] else [c])).
    rewrite Hcalls', <- app_assoc. split; [done|].
    rewrite length_app. destruct (isInit op); simpl; lia.
Qed.

Lemma open_stays_open_witness :
  db w_jane = true
  /\ db (run [OpDelete onsuccess "A001"; OpInit onerror; OpClear onerror] w_jane) = true.
Proof.
  split; [reflexivity|].
  exact (proj1 (open_stays_open [OpDelete onsuccess "A001"; OpInit onerror; OpClear onerror]
                                w_jane eq_refl)).
Defined.

(** X6. Putting a record a second time changes nothing, and putting a
    record under an identifier the store did not hold and deleting that
    identifier brings the store back: the records are those it held and
    [getAllAttendees] returns what it returned. *)
Theorem put_again_and_undo (w : World) (R : Attendee) :
  db w = true ->
  let once := (addAttendee onsuccess R w).2 in
  let twice := (addAttendee onsuccess R once).2 in
  let undone := (deleteAttendee onsuccess (NIK R) once).2 in
  attendees twice = attendees once
  /\ (attendees w !! NIK R = None ->
      attendees undone = attendees w
      /\ (getAllAttendees onsuccess undone).1 = (getAllAttendees onsuccess w).1).
Proof.
  intros Hdb once twice undone.
  assert (db once = true /\ attendees once = <[NIK R := R]> (attendees w))
    as [Hdb1 Hat1] by (unfold once, addAttendee; by rewrite Hdb).
  assert (attendees twice = <[NIK R := R]> (attendees once)) as ->
      by (unfold twice, addAttendee; by rewrite Hdb1).
  assert (db undone = true /\ attendees undone = delete (NIK R) (attendees once))
    as [Hdb2 Hat2] by (unfold undone, deleteAttendee; by rewrite Hdb1).
  rewrite Hat2, Hat1. split; [apply insert_insert_eq|].
  intros Hnone. rewrite delete_insert_eq, (delete_id _ _ Hnone). split; [done|].
  rewrite (getAllAttendees_open _ Hdb2), (getAllAttendees_open _ Hdb). simpl.
  by rewrite Hat2, Hat1, delete_insert_eq, (delete_id _ _ Hnone).
Qed.

Lemma put_again_and_undo_witness :
  db w_jane = true /\ attendees w_jane !! NIK alan = None
  /\ attendees (deleteAttendee onsuccess (NIK alan)
                               (addAttendee onsuccess alan w_jane).2).2
     = attendees w_jane.
Proof.
  assert (attendees w_jane !! NIK alan = None) as Hnone.
  { simpl. rewrite lookup_insert_ne by discriminate. apply lookup_empty. }
  split; [reflexivity|]. split; [exact Hnone|].
  exact (proj1 (proj2 (put_again_and_undo w_jane alan eq_refl) Hnone)).
Defined.

(** X7. A record put under an identifier the store did not hold adds one
    row to what [getAllAttendees] returns and takes none away: the list
    after is a permutation of the record and the list before. *)
Theorem addAttendee_fresh_adds_one (w : World) (R : Attendee) :
  db w = true ->
  attendees w !! NIK R = None ->
  exists l l',
    (getAllAttendees onsuccess w).1 = Resolved l
    /\ (getAllAttendees onsuccess (addAttendee onsuccess R w).2).1 = Resolved l'
    /\ l' ≡ₚ R :: l
    /\ length l' = S (length l).
Proof.
  intros Hdb Hnone. eexists _, _.
  rewrite (getAllAttendees_open w Hdb). split; [reflexivity|].
  assert (db (addAttendee onsuccess R w).2 = true
          /\ attendees (addAttendee onsuccess R w).2 = <[NIK R := R]> (attendees w))
    as [Hdb1 Hat1] by (unfold addAttendee; by rewrite Hdb).
  rewrite (getAllAttendees_open _ Hdb1). simpl. rewrite Hat1.
  split; [reflexivity|].
  assert (sort_by (fun a b => timestamp b - timestamp a)
                  (getAll (<[NIK R := R]> (attendees w)))
          ≡ₚ R :: sort_by (fun a b => timestamp b - timestamp a) (getAll (attendees w)))
    as Hp by (by rewrite !sort_by_perm, getAll_insert_fresh).
  split; [exact Hp|]. by rewrite Hp.
Qed.

Lemma addAttendee_fresh_adds_one_witness :
  db w_jane = true /\ attendees w_jane !! NIK alan = None
  /\ exists l l',
      (getAllAttendees onsuccess w_jane).1 = Resolved l
      /\ (getAllAttendees onsuccess (addAttendee onsuccess alan w_jane).2).1 = Resolved l'
      /\ l' ≡ₚ alan :: l.
Proof.
  assert (attendees w_jane !! NIK alan = None) as Hnone.
  { simpl. rewrite lookup_insert_ne by discriminate. apply lookup_empty. }
  split; [reflexivity|]. split; [exact Hnone|].
  destruct (addAttendee_fresh_adds_one w_jane alan eq_refl Hnone)
    as (l & l' & H1 & H2 & H3 & _).
  exists l, l'. split; [exact H1|]. split; [exact H2|exact H3].
Defined.

End StoreMore.

(** ** More on the check-in flows *)

Module FlowFacts.
Import Db App DbFacts DbMore Observations.

Lemma handleManualAdd_step now ev s :
  let s' := handleManualAdd now ev s in
  Unchanged s s'
  \/ Added (mkAttendee (trim (manualNIK s)) (trim (manualNama s)) now) s s'.
Proof.
  unfold handleManualAdd, Unchanged, Added.
  destruct (_ || _); simpl; [by left|].
  destruct (isDuplicate _ _) eqn:Hdup; simpl; [by left|].
  unfold addAttendee. destruct (db (world s)); simpl; [|by left].
  destruct ev; simpl; [by right|by left].
Qed.

Section Scan.
Variable JSON_parse : string -> option JSON.
Variable ToString : JSON -> string.

(** How the [try] block can end: it throws or returns with the store
    and the list as they were, or it returns having added a record. *)
Lemma scanTry_step now ev text s :
  match scanTry JSON_parse ToString now ev text s with
  | Thrown _ s' => Unchanged s s' /\ isProcessingScan s' = isProcessingScan s
  | Returned s' =>
      isProcessingScan s' = isProcessingScan s
      /\ (Unchanged s s'
          \/ exists nik nama, nik <> "" /\ nama <> ""
                /\ Added (mkAttendee nik nama now) s s')
  | OutsideTypes => True
  end.
Proof.
  unfold scanTry, Unchanged, Added.
  destruct (JSON_parse text) as [data|]; [|done].
  destruct (get data "NIK") as [e|nik]; [done|].
  destruct (get data "Nama") as [e|nama]; [done|].
  destruct (truthy nik) eqn:Hnik; simpl; [|done].
  destruct (truthy nama) eqn:Hnama; simpl; [|done].
  destruct (existsb _ _) eqn:Hdup; simpl; [by auto|].
  destruct nik as [[| | |nik| |]|]; try done.
  destruct nama as [[| | |nama| |]|]; try done.
  unfold addAttendee. destruct (db (world s)); simpl; [|done].
  destruct ev; simpl; [|done].
  split; [done|]. right. exists nik, nama.
  simpl in Hnik, Hnama. apply negb_true_iff, String.eqb_neq in Hnik, Hnama.
  done.
Qed.

Lemma handleScanSuccess_step now ev text s s' :
  handleScanSuccess JSON_parse ToString now ev text s = Returned s' ->
  Unchanged s s'
  \/ exists nik nama, nik <> "" /\ nama <> "" /\ Added (mkAttendee nik nama now) s s'.
Proof.
  unfold handleScanSuccess. destruct (isProcessingScan s).
  { intros [= <-]. by left. }
  pose proof (scanTry_step now ev text (setProcessing true s)) as Hstep.
  destruct (scanTry _ _ _ _ _ _) as [s1|e s1|]; [| |done].
  - intros [= <-]. by destruct Hstep as [_ Hstep].
  - intros [= <-]. left. by destruct Hstep as [Hstep _].
Qed.

Lemma handleScanSuccess_never_throws now ev text s e s' :
  handleScanSuccess JSON_parse ToString now ev text s <> Thrown e s'.
Proof.
  unfold handleScanSuccess. destruct (isProcessingScan s); [done|].
  by destruct (scanTry _ _ _ _ _ _).
Qed.
End Scan.

End FlowFacts.

Module PageFacts.
Import Db App Page DbFacts DbMore FlowFacts Observations.

Lemma copies_id (l : list Attendee) :
  map (fun a => mkAttendee (NIK a) (Nama a) (timestamp a)) l = l.
Proof. induction l as [|[n m t] l IH]; simpl; [done|]. by rewrite IH. Qed.

Lemma mount_change evInit evGet p : Change p (mount evInit evGet p).
Proof.
  unfold mount, initDB, getAllAttendees.
  destruct (db (world (core p))) eqn:Hdb; simpl.
  - rewrite Hdb. simpl. destruct evGet; simpl.
    + apply Loaded; [done|]. unfold shown. simpl. by rewrite copies_id.
    + by apply Same.
  - destruct evInit; simpl; [|by apply Same].
    destruct evGet; simpl.
    + apply Loaded; [done|]. unfold shown. simpl. by rewrite copies_id.
    + by apply Same.
Qed.

Lemma handleConfirmDelete_change ev p : Change p (handleConfirmDelete ev p).
Proof.
  unfold handleConfirmDelete.
  destruct (attendeeToDelete p) as [nik|]; [|by apply Same].
  destruct (String.eqb nik ""); [by apply Same|].
  unfold deleteAttendee. destruct (db (world (core p))); simpl; [|by apply Same].
  destruct ev; simpl; [|by apply Same].
  by apply (Removed _ _ nik).
Qed.

Lemma handleConfirmClear_change ev p : Change p (handleConfirmClear ev p).
Proof.
  unfold handleConfirmClear, clearAttendees.
  destruct (db (world (core p))); simpl; [|by apply Same].
  destruct ev; simpl; [by apply Cleared|by apply Same].
Qed.

Lemma handleManualAdd_change now ev p :
  Change p (setCore (handleManualAdd now ev (core p)) p).
Proof.
  destruct (handleManualAdd_step now ev (core p)) as [[H1 H2]|(H1 & H2 & H3)].
  - by apply Same.
  - by eapply Checked.
Qed.

Lemma handleScanSuccess_change JSON_parse ToString now ev text p c :
  handleScanSuccess JSON_parse ToString now ev text (core p) = Returned c ->
  Change p (setCore c p).
Proof.
  intros Hscan.
  destruct (handleScanSuccess_step _ _ _ _ _ _ _ Hscan)
    as [[H1 H2]|(nik & nama & _ & _ & H1 & H2 & H3)].
  - by apply Same.
  - by apply (Checked _ _ (mkAttendee nik nama now)).
Qed.

(** A typed payload never leaves the types of the model. *)
Lemma handleScanSuccess_typed JSON_parse ToString now ev text s :
  typed (JSON_parse text) = true ->
  exists s', handleScanSuccess JSON_parse ToString now ev text s = Returned s'.
Proof.
  intros Htyped. unfold handleScanSuccess.
  destruct (isProcessingScan s); [by eexists|].
  assert (scanTry JSON_parse ToString now ev text (setProcessing true s) <> OutsideTypes)
    as Hin.
  { unfold scanTry, typed in *. destruct (JSON_parse text) as [data|]; [|done].
    destruct (get data "NIK") as [e|nik]; [done|].
    destruct (get data "Nama") as [e|nama]; [done|].
    apply andb_true_iff in Htyped as [Hnik Hnama].
    destruct (truthy nik); simpl in *; [|done].
    destruct (truthy nama); simpl in *; [|done].
    destruct (existsb _ _); [done|].
    destruct nik as [[| | |nik| |]|]; try done.
    destruct nama as [[| | |nama| |]|]; try done.
    unfold addAttendee. destruct (negb _); [done|]. by destruct ev. }
  destruct (scanTry _ _ _ _ _ _); [by eexists|by eexists|done].
Qed.

Lemma not_duplicate_notin (l : list Attendee) (nik : string) :
  isDuplicate l nik = false -> nik ∉ NIK <$> l.
Proof.
  intros Hdup (a & -> & Hin)%list_elem_of_fmap.
  assert (isDuplicate l (NIK a) = true) as Hyes; [|congruence].
  unfold isDuplicate. apply existsb_exists. exists a.
  split; [by apply list_elem_of_In|apply String.eqb_refl].
Qed.

Lemma elem_of_filter_otherNIK (nik : string) (l : list Attendee) (a : Attendee) :
  a ∈ List.filter (otherNIK nik) l <-> a ∈ l /\ NIK a <> nik.
Proof.
  rewrite list_elem_of_In, filter_In, <- list_elem_of_In.
  unfold otherNIK. by rewrite negb_true_iff, String.eqb_neq.
Qed.

Lemma NoDup_fmap_filter (p : Attendee -> bool) (l : list Attendee) :
  NoDup (NIK <$> l) -> NoDup (NIK <$> List.filter p l).
Proof.
  induction l as [|a l IH]; simpl; [done|].
  intros [Hnotin Hnd]%NoDup_cons. destruct (p a); simpl; [|by apply IH].
  apply NoDup_cons. split; [|by apply IH].
  intros (b & Hb & Hin)%list_elem_of_fmap. apply Hnotin.
  apply list_elem_of_fmap. exists b. split; [done|].
  apply list_elem_of_In, filter_In in Hin as [Hin _]. by apply list_elem_of_In.
Qed.

Lemma change_Synced p p' : Change p p' -> Synced p -> Synced p'.
Proof.
  intros Hch (Hkeyed & Hnd & Hsub).
  destruct Hch as [Hr Hs|a Hdup Hr Hs|nik Hr Hs|Hr Hs|Hr Hs];
    unfold Synced; rewrite Hr, Hs.
  - done.
  - split; [by apply keyed_insert|]. split.
    + rewrite fmap_cons. apply NoDup_cons. split; [by apply not_duplicate_notin|done].
    + intros b [->|Hb]%elem_of_cons; [apply lookup_insert_eq|].
      rewrite lookup_insert_ne; [by apply Hsub|].
      intros Heq. apply (not_duplicate_notin _ _ Hdup).
      rewrite Heq. apply list_elem_of_fmap. by exists b.
  - split; [by apply keyed_delete|]. split; [by apply NoDup_fmap_filter|].
    intros b [Hb Hne]%elem_of_filter_otherNIK.
    rewrite lookup_delete_ne by done. by apply Hsub.
  - split; [apply keyed_empty|]. split; [constructor|]. by intros b Hb%elem_of_nil.
  - split; [done|]. split.
    + rewrite sort_by_perm. by apply NoDup_getAll.
    + intros b [k Hk]%sort_by_elem_of%elem_of_getAll.
      by rewrite (Hkeyed _ _ Hk).
Qed.

Lemma change_InSync p p' : Change p p' -> InSync p -> InSync p'.
Proof.
  intros Hch [Hsynced Hall]. split; [by apply (change_Synced p)|].
  destruct Hsynced as (Hkeyed & _ & _).
  destruct Hch as [Hr Hs|a Hdup Hr Hs|nik Hr Hs|Hr Hs|Hr Hs]; rewrite Hr, Hs.
  - done.
  - intros k b. rewrite lookup_insert. case_decide.
    + intros [= <-]. left.
    + intros Hk. right. by apply (Hall k).
  - intros k b. rewrite lookup_delete. case_decide; [done|]. intros Hk.
    apply elem_of_filter_otherNIK. split; [by apply (Hall k)|].
    by rewrite (Hkeyed _ _ Hk).
  - intros k b. by rewrite lookup_empty.
  - intros k b Hk. apply sort_by_elem_of, elem_of_getAll. by exists k.
Qed.

Lemma loaded_InSync p p' :
  keyed (records p) ->
  records p' = records p ->
  shown p' = sort_by (fun a b => timestamp b - timestamp a) (getAll (records p)) ->
  InSync p'.
Proof.
  intros Hkeyed Hr Hs. unfold InSync, Synced. rewrite Hr, Hs.
  split; [split; [done|split]|].
  - rewrite sort_by_perm. by apply NoDup_getAll.
  - intros b [k Hk]%sort_by_elem_of%elem_of_getAll. by rewrite (Hkeyed _ _ Hk).
  - intros k b Hk. apply sort_by_elem_of, elem_of_getAll. by exists k.
Qed.

(** In sync, the list is the stored records up to their order, and the
    guard answers for the store. *)
Lemma InSync_perm p : InSync p -> shown p ≡ₚ getAll (records p).
Proof.
  intros [(Hkeyed & Hnd & Hsub) Hall]. apply NoDup_Permutation.
  - by apply NoDup_fmap_1 in Hnd.
  - eapply NoDup_fmap_1, NoDup_getAll, Hkeyed.
  - intros a. rewrite elem_of_getAll. split; [eauto|]. intros [k Hk]. eauto.
Qed.

Lemma InSync_guard p nik :
  InSync p -> isDuplicate (shown p) nik = true <-> is_Some (records p !! nik).
Proof.
  intros [(Hkeyed & Hnd & Hsub) Hall]. unfold isDuplicate.
  rewrite existsb_exists. split.
  - intros (a & Hin%list_elem_of_In & <-%String.eqb_eq). eauto.
  - intros [a Ha]. exists a. split; [by apply list_elem_of_In, (Hall nik)|].
    apply String.eqb_eq. by apply Hkeyed.
Qed.

End PageFacts.

Module PageMore.
Import Db App Page Async DbFacts DbMore FlowFacts PageFacts Observations Examples
       MoreExamples.

Lemma keyed_page_jane : keyed (records page_jane).
Proof. apply (keyed_insert ∅ jane), keyed_empty. Qed.

Lemma initialPage_Synced (w : World) (online : bool) :
  keyed (attendees w) -> Synced (initialPage w online).
Proof.
  intros Hkeyed. split; [done|]. split; [constructor|]. by intros a Ha%elem_of_nil.
Qed.

Lemma mount_InSync (p : Page) :
  keyed (records p) -> InSync (mount onsuccess onsuccess p).
Proof.
  intros Hkeyed.
  assert (records (mount onsuccess onsuccess p) = records p
          /\ shown (mount onsuccess onsuccess p)
             = sort_by (fun a b => timestamp b - timestamp a) (getAll (records p)))
    as [Hr Hs].
  { unfold mount, initDB, getAllAttendees, records, shown.
    destruct (db (world (core p))) eqn:Hdb; simpl; rewrite ?Hdb; simpl;
      by rewrite copies_id. }
  by apply (loaded_InSync p).
Qed.

Lemma change_kept (p p' : Page) (k : string) (old : Attendee) :
  Change p p' -> InSync p -> records p !! k = Some old -> kept k old p'.
Proof.
  intros Hch Hsync Hold. unfold kept.
  destruct Hch as [Hr Hs|b Hdup Hr Hs|nik Hr Hs|Hr Hs|Hr Hs]; rewrite Hr.
  - by left.
  - left. rewrite lookup_insert_ne; [done|]. intros <-.
    assert (isDuplicate (shown p) (NIK b) = true) as Hyes; [|congruence].
    apply (InSync_guard p); [done|]. eauto.
  - rewrite lookup_delete. case_decide; [by right|by left].
  - right. apply lookup_empty.
  - by left.
Qed.

Lemma handleManualAdd_halves (now : Z) (ev : Fired) (s : State) :
  handleManualAdd now ev s
  = match manualAddStart now s with
    | Finished s' => s'
    | Awaiting newAttendee => manualAddResume ev newAttendee s
    end.
Proof.
  unfold handleManualAdd, manualAddStart, manualAddResume.
  destruct (_ || _); [done|]. by destruct (isDuplicate _ _).
Qed.

Lemma manualAddStart_awaiting (now : Z) (s : State) (a : Attendee) :
  manualAddStart now s = Awaiting a ->
  a = mkAttendee (trim (manualNIK s)) (trim (manualNama s)) now.
Proof.
  unfold manualAddStart. destruct (_ || _); [done|].
  destruct (isDuplicate _ _); [done|]. by intros [= <-].
Qed.

Lemma manualAddResume_saved (a : Attendee) (s : State) :
  db (world s) = true ->
  attendanceList (manualAddResume onsuccess a s) = a :: attendanceList s
  /\ db (world (manualAddResume onsuccess a s)) = true
  /\ attendees (world (manualAddResume onsuccess a s))
     = <[NIK a := a]> (attendees (world s)).
Proof. intros Hdb. unfold manualAddResume, addAttendee. by rewrite Hdb. Qed.

Lemma overlap_list (now1 now2 : Z) (a1 a2 : Attendee) (p : Page) :
  db (world (core p)) = true ->
  manualAddStart now1 (core p) = Awaiting a1 ->
  manualAddStart now2 (core p) = Awaiting a2 ->
  attendanceList (manualAddResume onsuccess a2 (manualAddResume onsuccess a1 (core p)))
  = a2 :: a1 :: shown p
  /\ NIK a2 = NIK a1
  /\ ~ Synced (setCore (manualAddResume onsuccess a2
                          (manualAddResume onsuccess a1 (core p))) p).
Proof.
  intros Hdb H1%manualAddStart_awaiting H2%manualAddStart_awaiting.
  destruct (manualAddResume_saved a1 (core p) Hdb) as (Hl1 & Hdb1 & _).
  destruct (manualAddResume_saved a2 _ Hdb1) as (Hl2 & _).
  assert (attendanceList (manualAddResume onsuccess a2
                            (manualAddResume onsuccess a1 (core p)))
          = a2 :: a1 :: shown p) as Hc.
  { by rewrite Hl2, Hl1. }
  assert (NIK a2 = NIK a1) as Hsame by (by rewrite H1, H2).
  split; [done|]. split; [done|].
  intros (_ & Hnodup & _). unfold shown in Hnodup. simpl in Hnodup.
  rewrite Hc in Hnodup. simpl in Hnodup. rewrite Hsame in Hnodup.
  apply NoDup_cons in Hnodup as [Hnotin _]. apply Hnotin. left.
Qed.

Section Host.
Variable JSON_parse : string -> option JSON.
Variable ToString : JSON -> string.

(** X8. Each handler that changes the store or the list, run from its
    start to its end with no other handler in between, keeps this: the
    list holds no identifier twice and every record on it is the record
    the store holds under its identifier. That is so for the mount
    effect, a scan of a typed payload, a manual add, a confirmed delete
    and a confirmed clear, and it holds when the page is first rendered
    over whatever an earlier session left in the store. A manual add run
    alone is its first half followed by its second. Two manual adds that
    overlap do not keep it: when the form is submitted twice before the
    first request has ended, both submits pass the Duplicate Guard of the
    same render, and with both requests successful the list then holds
    the identifier twice. *)
Theorem handlers_keep_list_stored (p : Page) :
  Synced p ->
  (forall evInit evGet, Synced (mount evInit evGet p))
  /\ (forall now ev text,
        typed (JSON_parse text) = true ->
        exists c,
          handleScanSuccess JSON_parse ToString now ev text (core p) = Returned c
          /\ Synced (setCore c p))
  /\ (forall now ev, Synced (setCore (handleManualAdd now ev (core p)) p))
  /\ (forall ev, Synced (handleConfirmDelete ev p))
  /\ (forall ev, Synced (handleConfirmClear ev p))
  /\ (forall w online, keyed (attendees w) -> Synced (initialPage w online))
  /\ (forall now ev,
        handleManualAdd now ev (core p)
        = match manualAddStart now (core p) with
          | Finished s' => s'
          | Awaiting newAttendee => manualAddResume ev newAttendee (core p)
          end)
  /\ (forall now1 now2 a1 a2,
        db (world (core p)) = true ->
        manualAddStart now1 (core p) = Awaiting a1 ->
        manualAddStart now2 (core p) = Awaiting a2 ->
        let c := manualAddResume onsuccess a2 (manualAddResume onsuccess a1 (core p)) in
        attendanceList c = a2 :: a1 :: shown p
        /\ NIK a2 = NIK a1
        /\ ~ Synced (setCore c p)).
Proof.
  intros Hp. split; [|split; [|split; [|split; [|split; [|split; [|split]]]]]].
  - intros evInit evGet. by apply (change_Synced p), Hp; apply mount_change.
  - intros now ev text Htyped.
    destruct (handleScanSuccess_typed JSON_parse ToString now ev text (core p) Htyped)
      as [c Hc].
    exists c. split; [done|].
    apply (change_Synced p); [by apply (handleScanSuccess_change _ _ _ _ _ _ _ Hc)|done].
  - intros now ev. apply (change_Synced p); [apply handleManualAdd_change|done].
  - intros ev. apply (change_Synced p); [apply handleConfirmDelete_change|done].
  - intros ev. apply (change_Synced p); [apply handleConfirmClear_change|done].
  - apply initialPage_Synced.
  - intros now ev. apply handleManualAdd_halves.
  - intros now1 now2 a1 a2 Hdb H1 H2 c. by apply (overlap_list now1 now2).
Qed.

(** X9. A mount that opens the store and reads it puts the list in step
    with the store: the list is a permutation of what the store would
    list, and the Duplicate Guard answers true exactly for the
    identifiers the store holds. Each handler that changes the store or
    the list, run from its start to its end with no other handler in
    between, keeps the two in step. Two manual adds that overlap, both
    started on the form of one render and both saved, leave them out of
    step. *)
Theorem handlers_keep_in_step (p : Page) :
  (keyed (records p) -> InSync (mount onsuccess onsuccess p))
  /\ (InSync p ->
      shown p ≡ₚ getAll (records p)
      /\ (forall nik, isDuplicate (shown p) nik = true <-> is_Some (records p !! nik))
      /\ (forall evInit evGet, InSync (mount evInit evGet p))
      /\ (forall now ev text,
            typed (JSON_parse text) = true ->
            exists c,
              handleScanSuccess JSON_parse ToString now ev text (core p) = Returned c
              /\ InSync (setCore c p))
      /\ (forall now ev, InSync (setCore (handleManualAdd now ev (core p)) p))
      /\ (forall ev, InSync (handleConfirmDelete ev p))
      /\ (forall ev, InSync (handleConfirmClear ev p))
      /\ (forall now1 now2 a1 a2,
            db (world (core p)) = true ->
            manualAddStart now1 (core p) = Awaiting a1 ->
            manualAddStart now2 (core p) = Awaiting a2 ->
            ~ InSync (setCore (manualAddResume onsuccess a2
                                 (manualAddResume onsuccess a1 (core p))) p))).
Proof.
  split; [apply mount_InSync|].
  intros Hp. split; [by apply InSync_perm|].
  split; [intros nik; by apply InSync_guard|].
  split; [|split; [|split; [|split; [|split]]]]; cycle 5.
  { intros now1 now2 a1 a2 Hdb H1 H2 [Hsynced _].
    by apply (overlap_list now1 now2 a1 a2 p Hdb H1 H2). }
  - intros evInit evGet. apply (change_InSync p); [apply mount_change|done].
  - intros now ev text Htyped.
    destruct (handleScanSuccess_typed JSON_parse ToString now ev text (core p) Htyped)
      as [c Hc].
    exists c. split; [done|].
    apply (change_InSync p); [by apply (handleScanSuccess_change _ _ _ _ _ _ _ Hc)|done].
  - intros now ev. apply (change_InSync p); [apply handleManualAdd_change|done].
  - intros ev. apply (change_InSync p); [apply handleConfirmDelete_change|done].
  - intros ev. apply (change_InSync p); [apply handleConfirmClear_change|done].
Qed.

(** X10. With the list in step with the store, no handler run from its
    start to its end with no other handler in between replaces a stored
    record by another one: after it the record is still there as it was,
    or its identifier holds nothing. Two manual adds that overlap do
    replace one: both started on the form of one render and both saved,
    the second puts its record where the first had put its own. *)
Theorem stored_record_not_replaced (p : Page) (k : string) (old : Attendee) :
  InSync p ->
  records p !! k = Some old ->
  (forall evInit evGet, kept k old (mount evInit evGet p))
  /\ (forall now ev text,
        typed (JSON_parse text) = true ->
        exists c,
          handleScanSuccess JSON_parse ToString now ev text (core p) = Returned c
          /\ kept k old (setCore c p))
  /\ (forall now ev, kept k old (setCore (handleManualAdd now ev (core p)) p))
  /\ (forall ev, kept k old (handleConfirmDelete ev p))
  /\ (forall ev, kept k old (handleConfirmClear ev p))
  /\ (forall now1 now2 a1 a2,
        db (world (core p)) = true ->
        manualAddStart now1 (core p) = Awaiting a1 ->
        manualAddStart now2 (core p) = Awaiting a2 ->
        records (setCore (manualAddResume onsuccess a1 (core p)) p) !! NIK a1 = Some a1
        /\ records (setCore (manualAddResume onsuccess a2
                               (manualAddResume onsuccess a1 (core p))) p) !! NIK a1
           = Some a2).
Proof.
  intros Hp Hold. split; [|split; [|split; [|split; [|split]]]]; cycle 5.
  { intros now1 now2 a1 a2 Hdb H1 H2.
    destruct (overlap_list now1 now2 a1 a2 p Hdb H1 H2) as (_ & Hsame & _).
    destruct (manualAddResume_saved a1 (core p) Hdb) as (_ & Hdb1 & Hm1).
    destruct (manualAddResume_saved a2 _ Hdb1) as (_ & _ & Hm2).
    unfold records. cbn [core setCore]. rewrite Hm2, Hm1, <- Hsame.
    split; apply lookup_insert_eq. }
  - intros evInit evGet. apply (change_kept p); [apply mount_change|done|done].
  - intros now ev text Htyped.
    destruct (handleScanSuccess_typed JSON_parse ToString now ev text (core p) Htyped)
      as [c Hc].
    exists c. split; [done|].
    apply (change_kept p);
      [by apply (handleScanSuccess_change _ _ _ _ _ _ _ Hc)|done|done].
  - intros now ev. apply (change_kept p); [apply handleManualAdd_change|done|done].
  - intros ev. apply (change_kept p); [apply handleConfirmDelete_change|done|done].
  - intros ev. apply (change_kept p); [apply handleConfirmClear_change|done|done].
Qed.
End Host.

Lemma handlers_keep_list_stored_witness :
  Synced form_alan
  /\ typed (parse_examples payload_jane) = true
  /\ (exists c,
        handleScanSuccess parse_examples toString_examples 2000 onsuccess payload_jane
                          (core form_alan) = Returned c
        /\ Synced (setCore c form_alan))
  /\ Synced (setCore (handleManualAdd 3000 onsuccess (core form_alan)) form_alan)
  /\ manualAddStart 3000 (core form_alan) = Awaiting alan
  /\ ~ Synced (setCore (manualAddResume onsuccess (mkAttendee "A002" "Alan" 3001)
                          (manualAddResume onsuccess alan (core form_alan)))
                       form_alan).
Proof.
  assert (Synced form_alan) as Hp.
  { exact (proj1 (mount_InSync page_jane keyed_page_jane)). }
  destruct (handlers_keep_list_stored parse_examples toString_examples form_alan Hp)
    as (_ & Hscan & Hmanual & _ & _ & _ & _ & Hoverlap).
  split; [exact Hp|]. split; [reflexivity|].
  split; [exact (Hscan 2000 onsuccess payload_jane eq_refl)|].
  split; [exact (Hmanual 3000 onsuccess)|].
  split; [reflexivity|].
  exact (proj2 (proj2 (Hoverlap 3000 3001 alan (mkAttendee "A002" "Alan" 3001)
                                eq_refl eq_refl eq_refl))).
Defined.

Lemma handlers_keep_in_step_witness :
  keyed (records page_jane)
  /\ InSync loaded_jane
  /\ shown loaded_jane ≡ₚ getAll (records loaded_jane)
  /\ InSync (handleConfirmDelete onsuccess (handleDeleteRequest "A001" loaded_jane)).
Proof.
  pose proof (proj1 (handlers_keep_in_step parse_examples toString_examples page_jane)
                    keyed_page_jane) as Hloaded.
  split; [exact keyed_page_jane|]. split; [exact Hloaded|].
  split.
  - exact (proj1 (proj2 (handlers_keep_in_step parse_examples toString_examples
                           loaded_jane) Hloaded)).
  - assert (InSync (handleDeleteRequest "A001" loaded_jane)) as Hreq by exact Hloaded.
    destruct (proj2 (handlers_keep_in_step parse_examples toString_examples
                       (handleDeleteRequest "A001" loaded_jane)) Hreq)
      as (_ & _ & _ & _ & _ & Hdel & _ & _).
    exact (Hdel onsuccess).
Defined.

Lemma stored_record_not_replaced_witness :
  InSync loaded_jane
  /\ records loaded_jane !! "A001" = Some jane
  /\ kept "A001" jane (handleConfirmClear onsuccess loaded_jane)
  /\ kept "A001" jane (setCore (handleManualAdd 3000 onsuccess (core loaded_jane))
                               loaded_jane).
Proof.
  assert (InSync loaded_jane) as Hloaded by apply mount_InSync, keyed_page_jane.
  assert (records loaded_jane !! "A001" = Some jane) as Hold by apply lookup_insert_eq.
  split; [exact Hloaded|]. split; [exact Hold|].
  destruct (stored_record_not_replaced parse_examples toString_examples
              loaded_jane "A001" jane Hloaded Hold)
    as (_ & _ & Hmanual & _ & Hclear & _).
  split; [exact (Hclear onsuccess)|exact (Hmanual 3000 onsuccess)].
Defined.

End PageMore.

Module FlowMore.
Import Db App DbFacts FlowFacts PageFacts Observations Examples MoreExamples.

Section Scan.
Variable JSON_parse : string -> option JSON.
Variable ToString : JSON -> string.

(** X11. A scan that is handled starts the three seconds during which
    scans are ignored. Handling a payload whose NIK and Nama are strings
    wherever they are truthy, or that does not parse, the handler returns
    with [isProcessingScan] set; any scan that comes before the timer has
    run returns the state as it is, whatever its payload; and the timer
    clears the flag. While the flag is set every scan, of any payload at
    all, returns the state as it is. *)
Theorem scan_debounce (now : Z) (ev : Fired) (text : string) (s : State) :
  (isProcessingScan s = true ->
   handleScanSuccess JSON_parse ToString now ev text s = Returned s)
  /\ (isProcessingScan s = false ->
      typed (JSON_parse text) = true ->
      exists s',
        handleScanSuccess JSON_parse ToString now ev text s = Returned s'
        /\ isProcessingScan s' = true
        /\ (forall now' ev' text',
              handleScanSuccess JSON_parse ToString now' ev' text' s' = Returned s')
        /\ isProcessingScan (scanTimeout s') = false).
Proof.
  split.
  { intros Hbusy. unfold handleScanSuccess. by rewrite Hbusy. }
  intros Hidle Htyped.
  destruct (handleScanSuccess_typed JSON_parse ToString now ev text s Htyped)
    as [s' Hscan].
  exists s'. split; [done|].
  assert (isProcessingScan s' = true) as Hbusy.
  { unfold handleScanSuccess in Hscan. rewrite Hidle in Hscan.
    pose proof (scanTry_step JSON_parse ToString now ev text (setProcessing true s))
      as Hstep.
    destruct (scanTry _ _ _ _ _ _) as [s1|e s1|]; [| |done].
    - injection Hscan as <-. by destruct Hstep as [-> _].
    - injection Hscan as <-. simpl. by destruct Hstep as [_ ->]. }
  split; [done|]. split; [|done].
  intros now' ev' text'. unfold handleScanSuccess. by rewrite Hbusy.
Qed.

(** X12. A scan of a valid payload for somebody who is not on the list,
    on an open store whose request succeeds, checks that person in: one
    request to put the record with the time of the scan, the record at
    the head of the list, and the welcome notification. A scan of the same
    payload after the three seconds is then answered as a duplicate and
    changes neither the store nor the list. *)
Theorem scan_checks_in_once (now : Z) (text : string) (s : State)
        (data : JSON) (nik nama : string) :
  isProcessingScan s = false ->
  JSON_parse text = Some data ->
  get data "NIK" = inr (Some (JString nik)) ->
  get data "Nama" = inr (Some (JString nama)) ->
  nik <> "" -> nama <> "" ->
  isDuplicate (attendanceList s) nik = false ->
  db (world s) = true ->
  let a := mkAttendee nik nama now in
  exists s',
    handleScanSuccess JSON_parse ToString now onsuccess text s = Returned s'
    /\ attendanceList s' = a :: attendanceList s
    /\ attendees (world s') = <[nik := a]> (attendees (world s))
    /\ calls (world s') = CallPut a :: calls (world s)
    /\ notification s' = Some (mkNotification ("Welcome, " +:+ nama +:+ "!") success)
    /\ forall now' ev', exists s'',
        handleScanSuccess JSON_parse ToString now' ev' text (scanTimeout s')
        = Returned s''
        /\ world s'' = world s'
        /\ attendanceList s'' = attendanceList s'
        /\ notification s''
           = Some (mkNotification (nama +:+ " is already checked in.") info).
Proof.
  intros Hidle Hparse Hnik Hnama Hne1 Hne2 Hdup Hdb a.
  apply String.eqb_neq in Hne1, Hne2.
  eexists. split.
  { unfold handleScanSuccess, scanTry. rewrite Hidle, Hparse, Hnik, Hnama. simpl.
    rewrite Hne1, Hne2. simpl. unfold isDuplicate in Hdup. rewrite Hdup.
    unfold addAttendee. rewrite Hdb. simpl. reflexivity. }
  simpl. do 4 (split; [done|]).
  intros now' ev'. eexists. split.
  { unfold handleScanSuccess, scanTry. simpl. rewrite Hparse, Hnik, Hnama. simpl.
    rewrite Hne1, Hne2. simpl. rewrite String.eqb_refl. simpl. reflexivity. }
  done.
Qed.

(** X13. When the store does not take the record of a valid scan, because
    it is not open or because the request fails, the handler shows the
    notification of a payload that failed to parse, and the list and the
    stored records stay as they were. *)
Theorem scan_store_failure (now : Z) (ev : Fired) (text : string) (s : State)
        (data : JSON) (nik nama : string) :
  isProcessingScan s = false ->
  JSON_parse text = Some data ->
  get data "NIK" = inr (Some (JString nik)) ->
  get data "Nama" = inr (Some (JString nama)) ->
  nik <> "" -> nama <> "" ->
  isDuplicate (attendanceList s) nik = false ->
  db (world s) = false \/ ev = onerror ->
  exists s',
    handleScanSuccess JSON_parse ToString now ev text s = Returned s'
    /\ notification s' = Some (mkNotification parseFailed error)
    /\ attendanceList s' = attendanceList s
    /\ attendees (world s') = attendees (world s).
Proof.
  intros Hidle Hparse Hnik Hnama Hne1 Hne2 Hdup Hfail.
  apply String.eqb_neq in Hne1, Hne2.
  unfold handleScanSuccess, scanTry. rewrite Hidle, Hparse, Hnik, Hnama. simpl.
  rewrite Hne1, Hne2. simpl. unfold isDuplicate in Hdup. rewrite Hdup.
  unfold addAttendee. destruct (db (world s)) eqn:Hdb; simpl.
  - destruct Hfail as [?| ->]; [done|]. simpl. by eexists.
  - by eexists.
Qed.

End Scan.

(** X15. A manual entry that passes the checks and is stored puts the
    record at the head of the list and empties the form; one that the
    store does not take, because it is not open or the request fails,
    shows that the attendee could not be saved and keeps the list, the
    stored records and what was typed. *)
Theorem manual_add_outcomes (now : Z) (ev : Fired) (s : State) :
  trim (manualNIK s) <> "" ->
  trim (manualNama s) <> "" ->
  isDuplicate (attendanceList s) (trim (manualNIK s)) = false ->
  let a := mkAttendee (trim (manualNIK s)) (trim (manualNama s)) now in
  let s' := handleManualAdd now ev s in
  (db (world s) = true -> ev = onsuccess ->
     attendanceList s' = a :: attendanceList s
     /\ attendees (world s') = <[NIK a := a]> (attendees (world s))
     /\ manualNIK s' = "" /\ manualNama s' = ""
     /\ notification s'
        = Some (mkNotification ("Welcome, " +:+ Nama a +:+ "!") success))
  /\ (db (world s) = false \/ ev = onerror ->
        attendanceList s' = attendanceList s
        /\ attendees (world s') = attendees (world s)
        /\ manualNIK s' = manualNIK s /\ manualNama s' = manualNama s
        /\ notification s' = Some (mkNotification "Failed to save attendee." error)).
Proof.
  intros Hnik Hnama Hdup a s'. apply String.eqb_neq in Hnik, Hnama.
  unfold s', handleManualAdd. rewrite Hnik, Hnama, Hdup. simpl.
  unfold addAttendee. split.
  - intros -> ->. done.
  - destruct (db (world s)); simpl; [|done].
    intros [?| ->]; done.
Qed.

Lemma scan_debounce_witness :
  isProcessingScan idle = false
  /\ typed (parse_examples payload_nik_only) = true
  /\ isProcessingScan busy = true
  /\ handleScanSuccess parse_examples toString_examples 2500 onsuccess
                       payload_jane busy = Returned busy
  /\ exists s',
      handleScanSuccess parse_examples toString_examples 2000 onsuccess
                        payload_nik_only idle = Returned s'
      /\ isProcessingScan s' = true
      /\ handleScanSuccess parse_examples toString_examples 2500 onsuccess
                           payload_jane s' = Returned s'.
Proof.
  split; [reflexivity|]. split; [reflexivity|]. split; [reflexivity|].
  split.
  { exact (proj1 (scan_debounce parse_examples toString_examples 2500 onsuccess
                                payload_jane busy) eq_refl). }
  destruct (proj2 (scan_debounce parse_examples toString_examples 2000 onsuccess
                                 payload_nik_only idle) eq_refl eq_refl)
    as (s' & H0 & H1 & H2 & _).
  exists s'. split; [exact H0|]. split; [exact H1|apply H2].
Defined.

Lemma scan_checks_in_once_witness :
  isDuplicate (attendanceList fresh) "A001" = false
  /\ db (world fresh) = true
  /\ exists s',
      handleScanSuccess parse_examples toString_examples 2000 onsuccess
                        payload_jane fresh = Returned s'
      /\ attendanceList s' = [mkAttendee "A001" "Jane" 2000]
      /\ exists s'',
          handleScanSuccess parse_examples toString_examples 9000 onsuccess
                            payload_jane (scanTimeout s') = Returned s''
          /\ attendanceList s'' = attendanceList s'.
Proof.
  split; [reflexivity|]. split; [reflexivity|].
  destruct (scan_checks_in_once parse_examples toString_examples 2000 payload_jane fresh
              (JObject [("NIK", JString "A001"); ("Nama", JString "Jane")])
              "A001" "Jane" eq_refl eq_refl eq_refl eq_refl
              ltac:(discriminate) ltac:(discriminate) eq_refl eq_refl)
    as (s' & H1 & H2 & _ & _ & _ & Hagain).
  exists s'. split; [exact H1|]. split; [exact H2|].
  destruct (Hagain 9000 onsuccess) as (s'' & H3 & _ & H4 & _).
  exists s''. split; [exact H3|exact H4].
Defined.

Lemma scan_store_failure_witness :
  isDuplicate (attendanceList fresh) "A001" = false
  /\ exists s',
      handleScanSuccess parse_examples toString_examples 2000 onerror
                        payload_jane fresh = Returned s'
      /\ notification s' = Some (mkNotification parseFailed error)
      /\ attendanceList s' = attendanceList fresh
      /\ attendees (world s') = attendees (world fresh).
Proof.
  split; [reflexivity|].
  apply (scan_store_failure parse_examples toString_examples 2000 onerror payload_jane fresh
           (JObject [("NIK", JString "A001"); ("Nama", JString "Jane")])
           "A001" "Jane");
    first [reflexivity | discriminate | by right].
Defined.


Lemma manual_add_outcomes_witness :
  trim (manualNIK typing_alan) = "A002" /\ trim (manualNama typing_alan) = "Alan"
  /\ isDuplicate (attendanceList typing_alan) "A002" = false
  /\ attendanceList (handleManualAdd 3000 onsuccess typing_alan)
     = [mkAttendee "A002" "Alan" 3000; jane]
  /\ manualNIK (handleManualAdd 3000 onerror typing_alan) = " A002 ".
Proof.
  split; [reflexivity|]. split; [reflexivity|]. split; [reflexivity|].
  destruct (manual_add_outcomes 3000 onsuccess typing_alan
              ltac:(discriminate) ltac:(discriminate) eq_refl) as [Hok _].
  destruct (manual_add_outcomes 3000 onerror typing_alan
              ltac:(discriminate) ltac:(discriminate) eq_refl) as [_ Hfail].
  split.
  - exact (proj1 (Hok eq_refl eq_refl)).
  - exact (proj1 (proj2 (proj2 (Hfail (or_intror eq_refl))))).
Defined.

End FlowMore.

Module HandlerMore.
Import Db App Page DbFacts DbMore FlowFacts PageFacts Observations Examples MoreExamples PageMore.

Lemma isDuplicate_filtered (l : list Attendee) (nik : string) :
  isDuplicate (List.filter (otherNIK nik) l) nik = false.
Proof.
  apply not_true_iff_false. unfold isDuplicate. rewrite existsb_exists.
  intros (a & [_ Hne]%filter_In & Heq%String.eqb_eq).
  unfold otherNIK in Hne. apply negb_true_iff, String.eqb_neq in Hne. done.
Qed.

(** X16. Confirming a deletion with no identifier pending, or with the
    empty one, does nothing. With an identifier pending, when the store
    deletes, the record leaves the store and the list, the dialog closes
    and the person can be checked in again; when the store does not
    delete, because it is not open or the request fails, the records, the
    list and the dialog with its pending identifier stay, and an error is
    shown. *)
Theorem confirm_delete_outcomes (ev : Fired) (p : Page) :
  (attendeeToDelete p = None \/ attendeeToDelete p = Some "" ->
   handleConfirmDelete ev p = p)
  /\ forall nik,
      attendeeToDelete p = Some nik -> nik <> "" ->
      let p' := handleConfirmDelete ev p in
      (db (world (core p)) = true -> ev = onsuccess ->
         records p' = delete nik (records p)
         /\ shown p' = List.filter (fun a => negb (String.eqb (NIK a) nik)) (shown p)
         /\ isDuplicate (shown p') nik = false
         /\ showDeleteConfirm p' = false /\ attendeeToDelete p' = None
         /\ notification (core p')
            = Some (mkNotification
                      (removedName
                         (List.find (fun a => String.eqb (NIK a) nik) (shown p))
                         +:+ " has been removed.") success))
      /\ (db (world (core p)) = false \/ ev = onerror ->
            records p' = records p /\ shown p' = shown p
            /\ showDeleteConfirm p' = showDeleteConfirm p
            /\ attendeeToDelete p' = Some nik
            /\ notification (core p')
               = Some (mkNotification "Failed to remove attendee." error)).
Proof.
  split.
  - unfold handleConfirmDelete. by intros [-> | ->].
  - intros nik Hpending Hne p'. unfold p', handleConfirmDelete.
    rewrite Hpending. apply String.eqb_neq in Hne. rewrite Hne.
    unfold deleteAttendee. split.
    + intros -> ->. simpl. repeat split; try done.
      apply isDuplicate_filtered.
    + destruct (db (world (core p))); simpl; [|done].
      intros [?| ->]; done.
Qed.

(** X17. Asking to delete and then cancelling brings the page back as it
    was, and after a cancel confirming deletes nothing. *)
Theorem cancel_delete_undoes (nik : string) (ev : Fired) (p : Page) :
  (showDeleteConfirm p = false -> attendeeToDelete p = None ->
   handleCancelDelete (handleDeleteRequest nik p) = p)
  /\ handleConfirmDelete ev (handleCancelDelete (handleDeleteRequest nik p))
     = handleCancelDelete (handleDeleteRequest nik p)
  /\ world (core (handleCancelDelete (handleDeleteRequest nik p))) = world (core p).
Proof.
  split; [|done]. destruct p. simpl. by intros -> ->.
Qed.

(** X18. Confirming the clearing, when the store clears, leaves the
    store and the list empty and closes the dialog; when the store does
    not clear, because it is not open or the request fails, the records,
    the list and the dialog stay and an error is shown. *)
Theorem confirm_clear_outcomes (ev : Fired) (p : Page) :
  let p' := handleConfirmClear ev p in
  (db (world (core p)) = true -> ev = onsuccess ->
     records p' = ∅ /\ shown p' = [] /\ showClearConfirm p' = false
     /\ notification (core p')
        = Some (mkNotification "Attendance list has been cleared." success))
  /\ (db (world (core p)) = false \/ ev = onerror ->
        records p' = records p /\ shown p' = shown p
        /\ showClearConfirm p' = showClearConfirm p
        /\ notification (core p')
           = Some (mkNotification "Failed to clear attendance list." error)).
Proof.
  intros p'. unfold p', handleConfirmClear, clearAttendees. split.
  - by intros -> ->.
  - destruct (db (world (core p))); simpl; [|done].
    intros [?| ->]; done.
Qed.

(** X20. The effect on mount. When the store cannot be opened the page
    says that offline storage is not available and asks for no records;
    when it opens but the read fails the page says the saved data could
    not be loaded; in both cases the list stays as it was. When both
    succeed the list is what [getAllAttendees] returns. *)
Theorem mount_outcomes (evInit evGet : Fired) (p : Page) :
  let p' := mount evInit evGet p in
  (db (world (core p)) = false -> evInit = onerror ->
     notification (core p')
     = Some (mkNotification "Offline storage is not available." error)
     /\ isDbInitialized p' = isDbInitialized p
     /\ shown p' = shown p
     /\ calls (world (core p')) = CallOpen :: calls (world (core p))
     /\ db (world (core p')) = false)
  /\ (db (world (core p)) = true \/ evInit = onsuccess ->
      isDbInitialized p' = true
      /\ db (world (core p')) = true
      /\ (evGet = onerror ->
            notification (core p')
            = Some (mkNotification "Could not load saved attendance data." error)
            /\ shown p' = shown p)
      /\ (evGet = onsuccess ->
            (getAllAttendees onsuccess (initDB evInit (world (core p))).2).1
            = Resolved (shown p')
            /\ notification (core p') = notification (core p))).
Proof.
  intros p'. unfold p', mount, initDB, getAllAttendees, records, shown. split.
  - intros Hdb ->. rewrite Hdb. simpl. done.
  - destruct (db (world (core p))) eqn:Hdb; simpl.
    + intros _. rewrite Hdb. simpl.
      destruct evGet; simpl; repeat split; try done. by rewrite copies_id.
    + intros [?| ->]; [done|]. simpl.
      destruct evGet; simpl; repeat split; try done. by rewrite copies_id.
Qed.

Section Host.
Variable toLocaleString : Z -> string.
Variable encodeURI : string -> string.

(** X19. Exporting, the sync button, typing in the form, opening and
    cancelling the dialogs, the scanner switch and what the scanner
    reports, the three-second timer and the connection events make no
    request to the store and leave the list as it is. In particular the
    sync sends nothing anywhere. *)
Theorem quiet_actions_leave_store (a : Action) (p : Page) :
  world (core (dispatch toLocaleString encodeURI a p)) = world (core p)
  /\ shown (dispatch toLocaleString encodeURI a p) = shown p.
Proof.
  destruct a; simpl; try done.
  - unfold handleExportCSV. by destruct (_ =? _)%nat.
  - destruct cb; try done.
    unfold handleScanError. by destruct (isScannerActive p).
Qed.
End Host.

Lemma confirm_delete_outcomes_witness :
  attendeeToDelete (handleDeleteRequest "A001" loaded_jane) = Some "A001"
  /\ shown (handleConfirmDelete onsuccess (handleDeleteRequest "A001" loaded_jane)) = []
  /\ shown (handleConfirmDelete onerror (handleDeleteRequest "A001" loaded_jane))
     = [jane]
  /\ handleConfirmDelete onsuccess loaded_jane = loaded_jane.
Proof.
  destruct (confirm_delete_outcomes onsuccess (handleDeleteRequest "A001" loaded_jane))
    as [_ Hok].
  destruct (confirm_delete_outcomes onerror (handleDeleteRequest "A001" loaded_jane))
    as [_ Hfail].
  split; [reflexivity|]. split; [|split].
  - exact (proj1 (proj2 (proj1 (Hok "A001" eq_refl ltac:(discriminate))
                           eq_refl eq_refl))).
  - exact (proj1 (proj2 (proj2 (Hfail "A001" eq_refl ltac:(discriminate))
                           (or_intror eq_refl)))).
  - exact (proj1 (confirm_delete_outcomes onsuccess loaded_jane) (or_introl eq_refl)).
Defined.

Lemma cancel_delete_undoes_witness :
  showDeleteConfirm loaded_jane = false /\ attendeeToDelete loaded_jane = None
  /\ handleCancelDelete (handleDeleteRequest "A001" loaded_jane) = loaded_jane.
Proof.
  split; [reflexivity|]. split; [reflexivity|].
  exact (proj1 (cancel_delete_undoes "A001" onsuccess loaded_jane) eq_refl eq_refl).
Defined.

Lemma confirm_clear_outcomes_witness :
  db (world (core loaded_jane)) = true
  /\ shown (handleConfirmClear onsuccess loaded_jane) = []
  /\ shown (handleConfirmClear onerror loaded_jane) = shown loaded_jane.
Proof.
  split; [reflexivity|]. split.
  - exact (proj1 (proj2 (proj1 (confirm_clear_outcomes onsuccess loaded_jane)
                           eq_refl eq_refl))).
  - exact (proj1 (proj2 (proj2 (confirm_clear_outcomes onerror loaded_jane)
                           (or_intror eq_refl)))).
Defined.

Lemma mount_outcomes_witness :
  db (world (core (initialPage w_closed true))) = false
  /\ notification (core (mount onerror onsuccess (initialPage w_closed true)))
     = Some (mkNotification "Offline storage is not available." error)
  /\ isDbInitialized (mount onsuccess onerror page_jane) = true.
Proof.
  split; [reflexivity|]. split.
  - exact (proj1 (proj1 (mount_outcomes onerror onsuccess (initialPage w_closed true))
                        eq_refl eq_refl)).
  - exact (proj1 (proj2 (mount_outcomes onsuccess onerror page_jane)
                        (or_introl eq_refl))).
Defined.

Lemma quiet_actions_leave_store_witness :
  world (core (dispatch noLocale noEncoding SyncData loaded_jane))
  = world (core loaded_jane)
  /\ shown (dispatch noLocale noEncoding SyncData loaded_jane) = shown loaded_jane.
Proof.
  exact (quiet_actions_leave_store noLocale noEncoding SyncData loaded_jane).
Defined.

End HandlerMore.

Module ViewMore.
Import Db App Observations Examples MoreExamples.

Lemma replaceQuotes_inj (s t : string) :
  replaceQuotes s = replaceQuotes t -> s = t.
Proof.
  revert t. induction s as [|c s IH]; intros [|d t]; simpl.
  - done.
  - by destruct (Ascii.eqb d dquote).
  - by destruct (Ascii.eqb c dquote).
  - destruct (Ascii.eqb_spec c dquote) as [->|Hc],
             (Ascii.eqb_spec d dquote) as [->|Hd].
    + intros [= Heq]. by rewrite (IH t Heq).
    + intros [= Hd' _]. by destruct Hd.
    + intros [= Hc' _]. by destruct Hc.
    + intros [= -> Heq]. by rewrite (IH t Heq).
Qed.

Lemma replaceQuotes_noQuote (s : string) : noQuote s = true -> replaceQuotes s = s.
Proof.
  unfold noQuote. rewrite negb_true_iff.
  induction s as [|c s IH]; [done|].
  change (includes (String c s) (String dquote ""))
    with (String.prefix (String dquote "") (String c s)
          || includes s (String dquote "")).
  intros [Hp Hs]%orb_false_iff. simpl in *.
  destruct (Ascii.eqb_spec c dquote) as [->|Hc].
  - destruct (ascii_dec dquote dquote); [|done]. by destruct s.
  - by rewrite (IH Hs).
Qed.

Lemma length_append (a b : string) :
  String.length (a +:+ b) = (String.length a + String.length b)%nat.
Proof. induction a as [|c a IH]; unfold_append; simpl; [done|]. by rewrite IH. Qed.

Lemma append_inj_r (x y e : string) : x +:+ e = y +:+ e -> x = y.
Proof.
  revert y. induction x as [|c x IH]; intros [|d y]; unfold_append.
  - done.
  - intros Heq. apply (f_equal String.length) in Heq.
    simpl in Heq. rewrite length_append in Heq. lia.
  - intros Heq. apply (f_equal String.length) in Heq.
    simpl in Heq. rewrite length_append in Heq. lia.
  - intros [= -> Heq]. by rewrite (IH y Heq).
Qed.

Lemma lineFeeds_append (a b : string) :
  lineFeeds (a +:+ b) = (lineFeeds a + lineFeeds b)%nat.
Proof.
  induction a as [|c a IH]; [done|].
  rewrite append_cons. cbn [lineFeeds]. rewrite IH. lia.
Qed.

Lemma lineFeeds_replaceQuotes (s : string) :
  lineFeeds (replaceQuotes s) = lineFeeds s.
Proof.
  induction s as [|c s IH]; [done|]. cbn [replaceQuotes].
  destruct (Ascii.eqb c dquote) eqn:Hc.
  - apply Ascii.eqb_eq in Hc as ->. cbn [lineFeeds]. rewrite IH. reflexivity.
  - cbn [lineFeeds]. by rewrite IH.
Qed.

Lemma lineFeeds_quoted (s : string) : lineFeeds (quoted s) = lineFeeds s.
Proof.
  unfold quoted. rewrite append_cons. cbn [lineFeeds].
  rewrite lineFeeds_append. change (lineFeeds (String dquote "")) with 0%nat.
  change (Ascii.eqb dquote (ascii_of_nat 10)) with false. cbv iota. lia.
Qed.

Lemma lineFeeds_concat_newline (x : string) (xs : list string) :
  lineFeeds (String.concat newline (x :: xs))
  = (sum_list_with lineFeeds (x :: xs) + length xs)%nat.
Proof.
  revert x. induction xs as [|y ys IH]; intros x.
  - cbn [String.concat sum_list_with length]. lia.
  - change (String.concat newline (x :: y :: ys))
      with (x +:+ newline +:+ String.concat newline (y :: ys)).
    rewrite !lineFeeds_append, IH.
    change (lineFeeds newline) with 1%nat.
    cbn [sum_list_with length]. lia.
Qed.

Lemma sum_list_with_map {A B : Type} (f : B -> nat) (g : A -> B) (l : list A) :
  sum_list_with f (map g l) = sum_list_with (fun a => f (g a)) l.
Proof. induction l as [|a l IH]; [done|]. cbn [map sum_list_with]. by rewrite IH. Qed.

Lemma sum_list_with_ext {A : Type} (f g : A -> nat) (l : list A) :
  (forall a, f a = g a) -> sum_list_with f l = sum_list_with g l.
Proof.
  intros Hfg. induction l as [|a l IH]; [done|].
  cbn [sum_list_with]. by rewrite Hfg, IH.
Qed.

Lemma quoted_inj (x y : string) : quoted x = quoted y -> x = y.
Proof. unfold quoted. unfold_append. intros [= Heq]. by apply append_inj_r in Heq. Qed.

Section Host.
Variable toLowerCase : string -> string.
Variable localeCompare : string -> string -> Z.
Variable toLocaleString : Z -> string.
Variable encodeURI : string -> string.

Lemma elem_of_projection l q key order a :
  a ∈ sortedAndFilteredAttendees toLowerCase localeCompare l q key order <->
  a ∈ l /\ (includes (toLowerCase (Nama a)) (toLowerCase q) = true
            \/ includes (toLowerCase (NIK a)) (toLowerCase q) = true).
Proof.
  unfold sortedAndFilteredAttendees.
  by rewrite sort_by_elem_of, list_elem_of_In, filter_In, <- list_elem_of_In,
       orb_true_iff.
Qed.

Lemma includes_refl (s : string) : includes s s = true.
Proof. apply includes_spec. exists "", "". by rewrite append_empty_r. Qed.

Lemma includes_trans (s q q' : string) :
  includes s q = true -> includes q q' = true -> includes s q' = true.
Proof.
  rewrite !includes_spec. intros (u & v & ->) (u' & v' & ->).
  exists (u +:+ u'), (v' +:+ v). by rewrite !append_assoc.
Qed.

Lemma lineFeeds_csvRow (a : Attendee) :
  lineFeeds (String.concat "," (csvRow toLocaleString a))
  = (lineFeeds (NIK a) + lineFeeds (Nama a)
     + lineFeeds (toLocaleString (timestamp a)))%nat.
Proof.
  unfold csvRow. cbn [String.concat].
  rewrite !lineFeeds_append, !lineFeeds_quoted, lineFeeds_replaceQuotes.
  cbn [lineFeeds Ascii.eqb ascii_of_nat]. simpl. lia.
Qed.

Lemma lineFeeds_csvContent (l : list Attendee) :
  lineFeeds (csvContent toLocaleString l)
  = (length l
     + sum_list_with
         (fun a => lineFeeds (NIK a) + lineFeeds (Nama a)
                   + lineFeeds (toLocaleString (timestamp a)))
         l)%nat.
Proof.
  unfold csvContent, csvLines.
  rewrite lineFeeds_append, lineFeeds_concat_newline.
  cbn [sum_list_with length Nat.pred].
  rewrite !length_map, sort_by_length, sum_list_with_map, sum_list_with_map.
  rewrite (sum_list_with_ext _ _ _ lineFeeds_csvRow).
  rewrite (sum_list_with_Permutation_proper _ _ _ (sort_by_perm _ l)).
  change (lineFeeds "data:text/csv;charset=utf-8,") with 0%nat.
  change (lineFeeds (String.concat "," headers)) with 0%nat.
  lia.
Qed.

Lemma csvContent_header (l : list Attendee) :
  l <> [] ->
  exists rest,
    csvContent toLocaleString l
    = "data:text/csv;charset=utf-8,NIK,Nama,Timestamp" +:+ newline +:+ rest.
Proof.
  intros Hl. unfold csvContent, csvLines.
  pose proof (sort_by_length (fun a b => timestamp a - timestamp b) l) as Hlen.
  destruct (sort_by _ l) as [|r rs].
  { destruct l; [done|discriminate Hlen]. }
  exists (String.concat newline
            (map (String.concat ",") (map (csvRow toLocaleString) (r :: rs)))).
  reflexivity.
Qed.

(** X21. The export leaves the store and the list alone. For an empty
    list it makes no link and says there is nobody to export; otherwise
    the link carries the document, named after the day. The document
    starts with the header line, and it has one line feed for each
    record and one more for each line feed in a field of a record: one
    line for each record after the header exactly when no identifier,
    name or written time holds a line feed. *)
Theorem export_outcomes (date : string) (s : State) :
  let (s', link) := handleExportCSV toLocaleString encodeURI date s in
  world s' = world s /\ attendanceList s' = attendanceList s
  /\ (attendanceList s = [] ->
        link = None
        /\ notification s' = Some (mkNotification "No attendees to export." info))
  /\ (attendanceList s <> [] ->
        link = Some (mkLink (encodeURI (csvContent toLocaleString (attendanceList s)))
                            ("attendance_list_" +:+ date +:+ ".csv"))
        /\ notification s' = Some (mkNotification "Attendance list exported." success)
        /\ (exists rest,
              csvContent toLocaleString (attendanceList s)
              = "data:text/csv;charset=utf-8,NIK,Nama,Timestamp" +:+ newline +:+ rest)
        /\ lineFeeds (csvContent toLocaleString (attendanceList s))
           = (length (attendanceList s)
              + sum_list_with
                  (fun a => lineFeeds (NIK a) + lineFeeds (Nama a)
                            + lineFeeds (toLocaleString (timestamp a)))
                  (attendanceList s))%nat).
Proof.
  unfold handleExportCSV.
  destruct (length (attendanceList s) =? 0)%nat eqn:Hlen; cbn [fst snd].
  - apply Nat.eqb_eq in Hlen. split; [done|]. split; [done|]. split; [done|].
    intros Hne. by destruct (attendanceList s).
  - apply Nat.eqb_neq in Hlen. split; [done|]. split; [done|]. split.
    { intros Hnil. by rewrite Hnil in Hlen. }
    intros Hne. split; [done|]. split; [done|].
    split; [by apply csvContent_header|apply lineFeeds_csvContent].
Qed.

(** X22. The name field of the export tells names apart: two records
    whose lines have the same name field have the same name, and a name
    without a double quote is written as it is between the quotes. *)
Theorem escaped_names_distinct (a b : Attendee) :
  (nth 1 (csvRow toLocaleString a) "" = nth 1 (csvRow toLocaleString b) "" ->
   Nama a = Nama b)
  /\ (noQuote (Nama a) = true ->
      nth 1 (csvRow toLocaleString a) "" = quoted (Nama a)).
Proof.
  unfold csvRow. simpl. split.
  - intros Heq%quoted_inj. by apply replaceQuotes_inj.
  - intros Ha. by rewrite (replaceQuotes_noQuote _ Ha).
Qed.

(** X23. The list projection never shows more records than there are;
    searching the identifier or the name of a record of the list, as it is
    written, shows that record; and a search text that is part of another
    keeps all the records the other one shows. *)
Theorem projection_search (l : list Attendee) (q : string)
        (key : SortKey) (order : SortOrder) :
  (length (sortedAndFilteredAttendees toLowerCase localeCompare l q key order)
   <= length l)%nat
  /\ (forall a, a ∈ l ->
        a ∈ sortedAndFilteredAttendees toLowerCase localeCompare l (NIK a) key order
        /\ a ∈ sortedAndFilteredAttendees toLowerCase localeCompare l (Nama a) key order)
  /\ (forall q' a,
        includes (toLowerCase q) (toLowerCase q') = true ->
        a ∈ sortedAndFilteredAttendees toLowerCase localeCompare l q key order ->
        a ∈ sortedAndFilteredAttendees toLowerCase localeCompare l q' key order).
Proof.
  split; [|split].
  - unfold sortedAndFilteredAttendees. rewrite sort_by_length. apply filter_length_le.
  - intros a Ha. rewrite !elem_of_projection.
    split; (split; [done|]); [right|left]; apply includes_refl.
  - intros q' a Hq. rewrite !elem_of_projection.
    intros [Ha [Hn|Hn]]; (split; [done|]); [left|right];
      by apply (includes_trans _ (toLowerCase q)).
Qed.
End Host.

Lemma export_outcomes_witness :
  attendanceList idle <> []
  /\ lineFeeds (csvContent noLocale (attendanceList idle)) = 1%nat
  /\ attendanceList broken_line <> []
  /\ lineFeeds (csvContent noLocale (attendanceList broken_line)) = 2%nat
  /\ (handleExportCSV noLocale noEncoding "2024-01-01" fresh).2
     = None.
Proof.
  pose proof (export_outcomes noLocale noEncoding "2024-01-01" idle) as H1.
  pose proof (export_outcomes noLocale noEncoding "2024-01-01" broken_line) as H3.
  pose proof (export_outcomes noLocale noEncoding "2024-01-01"
                              fresh) as H2.
  cbn [handleExportCSV idle broken_line fresh attendanceList length Nat.eqb] in H1, H3, H2.
  split; [discriminate|]. split; [|split; [discriminate|split]].
  - exact (proj2 (proj2 (proj2 (proj2 (proj2 (proj2 H1)) ltac:(discriminate))))).
  - exact (proj2 (proj2 (proj2 (proj2 (proj2 (proj2 H3)) ltac:(discriminate))))).
  - exact (proj1 (proj1 (proj2 (proj2 H2)) eq_refl)).
Defined.

Lemma escaped_names_distinct_witness :
  noQuote (Nama jane) = true
  /\ nth 1 (csvRow noLocale jane) "" = quoted "Jane".
Proof.
  split; [reflexivity|].
  exact (proj2 (escaped_names_distinct noLocale jane jane) eq_refl).
Defined.

Lemma projection_search_witness :
  jane_A1 ∈ [jane_A1; alan_A2]
  /\ includes (latin1_toLowerCase "Jane") (latin1_toLowerCase "AN") = true
  /\ jane_A1 ∈ sortedAndFilteredAttendees latin1_toLowerCase unit_compare
                 [jane_A1; alan_A2] "A1" SortNIK asc.
Proof.
  split; [left|]. split; [reflexivity|].
  exact (proj1 (proj1 (proj2 (projection_search latin1_toLowerCase unit_compare
                                [jane_A1; alan_A2] "" SortNIK asc))
                      jane_A1 ltac:(left))).
Defined.

End ViewMore.

Module ScannerMore.
Import Db App Page Scanner Observations Examples MoreExamples PageMore.

Lemma chooseCamera_member cameras cameraId :
  chooseCamera cameras = inr cameraId ->
  exists cs c, cameras = Some cs /\ c ∈ cs /\ id c = cameraId
               /\ (forall c1, cs !! 1%nat = Some c1 -> c1 = c).
Proof.
  destruct cameras as [[|c0 [|c1 cs]]|]; simpl; try done; intros [= <-].
  - exists [c0], c0. repeat split; [left|]. by intros c1.
  - exists (c0 :: c1 :: cs), c1. repeat split; [right; left|]. by intros c [= ->].
Qed.

Section Host.
Variable toLocaleString : Z -> string.
Variable encodeURI : string -> string.

(** X24. Starting the scanner, with the library loaded and the component
    still mounted, ends in one of two ways, and neither touches the store
    or the list. Either the scanner reports that it is ready: then the
    device listed cameras, the scanner was started on one of them, the
    second when there are several, and the page shows the scanner.
    Or it reports an error: then the page shows that message as an error
    and switches the scanner off. A component that was unmounted in the
    meantime reports nothing. *)
Theorem scanner_start_outcomes
        (getCameras : Failure + option (list Camera))
        (start : string -> option Failure) (p : Page) :
  isScannerActive p = true ->
  let cb := startScanner true getCameras start true in
  startScanner true getCameras start false = silent
  /\ exists p',
      dispatch toLocaleString encodeURI (FromScanner cb) p = p'
      /\ world (core p') = world (core p)
      /\ shown p' = shown p
      /\ ((cb = onReady
           /\ isScannerActive p' = true /\ isScannerInitializing p' = false
           /\ exists cs c, getCameras = inr (Some cs) /\ c ∈ cs
                           /\ start (id c) = None
                           /\ (forall c1, cs !! 1%nat = Some c1 -> c1 = c))
          \/ (exists errorMessage,
                cb = onScanError errorMessage
                /\ isScannerActive p' = false /\ isScannerInitializing p' = false
                /\ notification (core p')
                   = Some (mkNotification errorMessage error))).
Proof.
  intros Hactive cb. unfold cb, startScanner. simpl. split.
  { destruct getCameras as [err|cameras]; [done|].
    destruct (chooseCamera cameras); [done|]. by destruct (start _). }
  destruct getCameras as [err|cameras].
  { eexists. simpl. unfold handleScanError. rewrite Hactive.
    split; [reflexivity|]. split; [done|]. split; [done|]. right. by eexists. }
  destruct (chooseCamera cameras) as [err|cameraId] eqn:Hchoose.
  { eexists. simpl. unfold handleScanError. rewrite Hactive.
    split; [reflexivity|]. split; [done|]. split; [done|]. right. by eexists. }
  destruct (start cameraId) as [err|] eqn:Hstart.
  { eexists. simpl. unfold handleScanError. rewrite Hactive.
    split; [reflexivity|]. split; [done|]. split; [done|]. right. by eexists. }
  eexists. simpl. split; [reflexivity|]. split; [done|]. split; [done|].
  left. split; [done|]. split; [done|]. split; [done|].
  destruct (chooseCamera_member _ _ Hchoose) as (cs & c & -> & Hin & <- & Hsecond).
  by exists cs, c.
Qed.
End Host.

Lemma scanner_start_outcomes_witness :
  isScannerActive scanning = true
  /\ startScanner true (inr (Some [front; back])) (fun _ => None) true = onReady
  /\ exists p',
      dispatch noLocale noEncoding
               (FromScanner (startScanner true (inr (Some [])) (fun _ => None) true))
               scanning = p'
      /\ isScannerActive p' = false.
Proof.
  split; [reflexivity|]. split; [reflexivity|].
  destruct (scanner_start_outcomes noLocale noEncoding
              (inr (Some [])) (fun _ => None) scanning eq_refl)
    as (_ & p' & Hd & _ & _ & [(Hready & _)|(msg & _ & Hoff & _)]).
  - discriminate Hready.
  - exists p'. split; [exact Hd|exact Hoff].
Defined.

End ScannerMore.
